(** * Installation monitors of the Outline server manager

    A shallow embedding of the two managed-server classes of the web app:

    - [DigitalOcean]: class [DigitalOceanServer]
      (providers/digitalocean/digitalocean_server.ts), the "cached-refresh"
      monitor: a slow timer refreshes the droplet info, the install state is
      computed from the cached tags, and [waitOnInstall] watches the state on
      a fast timer;
    - [Gcp]: class [GcpServer] (web_app/gcp_server.ts), the "direct-poll"
      monitor: [waitOnInstall] is an async loop that fetches the guest
      attributes and sleeps.

    JavaScript runs these on one event loop.  Every callback and every
    continuation of an [await] is modelled as one event of a step function,
    so any interleaving of timers, network answers and deletion is a list of
    events.  Console output is left out, and with it the 'server-active'
    event of [DigitalOceanServer], whose only listener stops a console
    timer. *)

From Stdlib Require Import String Ascii ZArith NArith QArith Lia.
From stdpp Require Import base gmap strings list pretty.

Local Open Scope string_scope.

(** ** JavaScript values used by both classes *)

Module Js.

(** Strings are modelled as byte strings: the tags and attributes of the
    installer are ASCII. *)

Definition lowerChar (c : ascii) : ascii :=
  let n := N_of_ascii c in
  if ((65 <=? n) && (n <=? 90))%N then ascii_of_N (n + 32) else c.

(** [s.toLowerCase()] *)
Fixpoint toLowerCase (s : string) : string :=
  match s with
  | EmptyString => EmptyString
  | String c r => String (lowerChar c) (toLowerCase r)
  end.

(** [s.slice(0, n)] *)
Definition sliceTo (n : nat) (s : string) : string := substring 0 n s.

(** [s.slice(n)] *)
Fixpoint sliceFrom (n : nat) (s : string) : string :=
  match n, s with
  | O, _ => s
  | S _, EmptyString => EmptyString
  | S k, String _ r => sliceFrom k r
  end.

(** [s.endsWith(suffix)] *)
Definition endsWith (s suffix : string) : bool :=
  let n := String.length s in
  let k := String.length suffix in
  (k <=? n)%nat && String.eqb (sliceFrom (n - k) s) suffix.

(** The text before the first [sep], and the text after it when there is
    one. *)
Fixpoint breakAt (sep : ascii) (s : string) : string * option string :=
  match s with
  | EmptyString => (EmptyString, None)
  | String c r =>
      if Ascii.eqb c sep then (EmptyString, Some r)
      else let (h, t) := breakAt sep r in (String c h, t)
  end.

(** [const [a, b] = s.split(sep, 2)]: the first two pieces; [b] is
    [undefined] ([None]) when [s] has no separator. *)
Definition split2 (sep : ascii) (s : string) : string * option string :=
  let (a, rest) := breakAt sep s in
  (a, (fun r => fst (breakAt sep r)) <$> rest).

(** Truthiness of a [string | undefined]: [undefined] and the empty string
    are falsy. *)
Definition truthy (v : option string) : bool :=
  match v with
  | Some s => negb (String.eqb s "")
  | None => false
  end.

(** A plain object [{}] whose values are strings.  The map holds its own
    properties.  The object inherits from [Object.prototype]: an assignment
    to the key '__proto__' calls the setter of the prototype, which ignores
    a string, so it creates no own property; every other assignment creates
    or overwrites an own property. *)
Definition objectSet (o : gmap string string) (k v : string) : gmap string string :=
  if String.eqb k "__proto__" then o else <[k := v]> o.

(** The members of [Object.prototype]. *)
Definition objectPrototypeMembers : list string :=
  ["constructor"; "hasOwnProperty"; "isPrototypeOf"; "propertyIsEnumerable";
   "toLocaleString"; "toString"; "valueOf"; "__proto__";
   "__defineGetter__"; "__defineSetter__"; "__lookupGetter__"; "__lookupSetter__"].

(** What a bracket lookup [o[k]] finds: the text of an own property, a
    member of the prototype, or [undefined]. *)
Inductive Property :=
| Own (v : string)
| Inherited
| Undefined.

Definition objectGet (o : gmap string string) (k : string) : Property :=
  match o !! k with
  | Some v => Own v
  | None => if bool_decide (k ∈ objectPrototypeMembers) then Inherited else Undefined
  end.

Definition base64Char (n : N) : ascii :=
  (if n <? 26 then ascii_of_N (65 + n)
   else if n <? 52 then ascii_of_N (97 + (n - 26))
   else if n <? 62 then ascii_of_N (48 + (n - 52))
   else if n =? 62 then "+"%char else "/"%char)%N.

(** [btoa(s)]: base64 of a string of bytes (it cannot fail on bytes). *)
Fixpoint btoa (s : string) : string :=
  match s with
  | EmptyString => EmptyString
  | String a r1 =>
      let x := N_of_ascii a in
      match r1 with
      | EmptyString =>
          String (base64Char (x / 4))
            (String (base64Char ((x mod 4) * 16)) "==")
      | String b r2 =>
          let y := N_of_ascii b in
          match r2 with
          | EmptyString =>
              String (base64Char (x / 4))
                (String (base64Char ((x mod 4) * 16 + y / 16))
                   (String (base64Char ((y mod 16) * 4)) "="))
          | String c r3 =>
              let z := N_of_ascii c in
              String (base64Char (x / 4))
                (String (base64Char ((x mod 4) * 16 + y / 16))
                   (String (base64Char ((y mod 16) * 4 + z / 64))
                      (String (base64Char (z mod 64)) (btoa r3))))
          end
      end
  end%N.

End Js.

(** ** Errors and results *)

(** The error classes of ../infrastructure/errors that the two classes
    throw, and any other [Error] with its message. *)
Inductive Error :=
| ServerInstallFailedError
| DeletedServerError
| OtherError (msg : string).

(** The result of a call that may throw, or of a promise that settled. *)
Inductive Result (A : Type) :=
| Ok (a : A)
| Throw (e : Error).
Arguments Ok {A} a.
Arguments Throw {A} e.

#[export] Instance Result_ret : MRet Result := @Ok.

#[export] Instance Result_bind : MBind Result := fun A B k r =>
  match r with
  | Ok a => k a
  | Throw e => Throw e
  end.

(** ** The install states

    Both files declare the same numeric enum. *)
Inductive InstallState :=
| UNKNOWN
| CREATED
| BOOTED
| SUCCESS
| ERROR
| DELETED.

#[export] Instance InstallState_eq_dec : EqDecision InstallState.
Proof. solve_decision. Defined.

(** The number of an enum member. *)
Definition stateNumber (s : InstallState) : Z :=
  match s with
  | UNKNOWN => 0
  | CREATED => 1
  | BOOTED => 2
  | SUCCESS => 3
  | ERROR => 4
  | DELETED => 5
  end.

(** [a < b] and [a >= b] on enum members. *)
Definition stateLt (a b : InstallState) : bool := (stateNumber a <? stateNumber b)%Z.
Definition stateGe (a b : InstallState) : bool := (stateNumber b <=? stateNumber a)%Z.

(** The states the spec calls terminal. *)
Definition terminal (s : InstallState) : Prop :=
  s = SUCCESS \/ s = ERROR \/ s = DELETED.

(** ** Hex decoding of tag values *)

(** [hexToString] is imported from ../infrastructure/hex_encoding, which is
    not among the sources: the class takes it as a parameter.  Its argument
    is [None] when the tag has no value part ([undefined]). *)
Class HexEncoding := hexToString : option string -> Result string.

Definition hexDigit (c : ascii) : option N :=
  let n := N_of_ascii c in
  (if (48 <=? n) && (n <=? 57) then Some (n - 48)
   else if (97 <=? n) && (n <=? 102) then Some (n - 87)
   else if (65 <=? n) && (n <=? 70) then Some (n - 55)
   else None)%N.

Fixpoint hexDecode (s : string) : Result string :=
  match s with
  | EmptyString => Ok EmptyString
  | String a r1 =>
      match r1 with
      | EmptyString => Throw (OtherError "hexString has odd length")
      | String b r2 =>
          match hexDigit a, hexDigit b with
          | Some x, Some y =>
              r ← hexDecode r2; Ok (String (ascii_of_N (16 * x + y)) r)
          | _, _ => Throw (OtherError "not a hex digit")
          end
      end
  end.

(** Modelled from the spec: [hexToString] of ../infrastructure/hex_encoding
    (values are hex-encoded, a decoding failure makes the tag skipped): two
    hex digits per character; a missing value, an odd length or a character
    that is not a hex digit is a failure. *)
Definition hexToStringModel : HexEncoding :=
  fun v =>
    match v with
    | None => Throw (OtherError "undefined")
    | Some s => hexDecode s
    end.

(** ** The cached-refresh monitor: [DigitalOceanServer] *)

Module DigitalOcean.

Definition KEY_VALUE_TAG : string := "kv".
Definition CERTIFICATE_FINGERPRINT_TAG : string := "certsha256".
Definition API_URL_TAG : string := "apiurl".
Definition INSTALL_ERROR_TAG : string := "install-error".
Definition DEPRECATED_API_PORT_TAG : string := "apiport".
Definition DEPRECATED_API_PREFIX_TAG : string := "apiprefix".

(** [TIMEOUT_MS] of [pollInstallState], in milliseconds. *)
Definition TIMEOUT_MS : Z := 5 * 60 * 1000.

(** The fields of [DropletInfo] (../cloud/digitalocean_api) that the class
    reads. *)
Record Network := {
  net_type : string;
  ip_address : string }.

Record DropletInfo := {
  id : Z;
  status : string;
  tags : list string;
  networks_v4 : list Network;
  size_transfer : Q;
  size_price_monthly : Q;
  region_slug : string }.

(** A [DigitalOceanSession] is a reference to the session object. *)
Definition DigitalOceanSession := nat.

(** A [DigitalOceanHost] object: [host_ref] is its identity on the heap. *)
Record DigitalOceanHost := {
  host_ref : nat;
  host_digitalOcean : DigitalOceanSession;
  host_dropletInfo : DropletInfo }.

(** The promise that [waitOnInstall] returned, with its 100 ms interval:
    [Polling] while the interval runs, [Cleared] once it is cleared with the
    promise left pending, [Settled] with the outcome. *)
Inductive Waiter :=
| NotCalled
| Polling
| Cleared
| Settled (r : Result unit).

Record DigitalOceanServer := {
  installState : InstallState;
  listener : option nat;
  digitalOcean : DigitalOceanSession;
  dropletInfo : DropletInfo;
  (* ShadowboxServer *)
  managementApiUrl : option string;
  (* pollInstallState: startTimestamp, the 3 s interval, and the refreshes
     whose getDroplet call has not settled yet *)
  startTimestamp : Z;
  refreshInterval : bool;
  refreshing : nat;
  (* waitOnInstall *)
  installPromise : Waiter;
  (* outside the object: the calls the listeners received, the trusted
     certificates, localStorage, the number of objects allocated *)
  progressCalls : list (nat * Q);
  trustedCertificates : list string;
  localStorage : gmap string string;
  allocated : nat }.

Definition with_installState v s :=
  {| installState := v; listener := listener s; digitalOcean := digitalOcean s;
     dropletInfo := dropletInfo s; managementApiUrl := managementApiUrl s;
     startTimestamp := startTimestamp s; refreshInterval := refreshInterval s;
     refreshing := refreshing s; installPromise := installPromise s;
     progressCalls := progressCalls s; trustedCertificates := trustedCertificates s;
     localStorage := localStorage s; allocated := allocated s |}.
Definition with_listener v s :=
  {| installState := installState s; listener := v; digitalOcean := digitalOcean s;
     dropletInfo := dropletInfo s; managementApiUrl := managementApiUrl s;
     startTimestamp := startTimestamp s; refreshInterval := refreshInterval s;
     refreshing := refreshing s; installPromise := installPromise s;
     progressCalls := progressCalls s; trustedCertificates := trustedCertificates s;
     localStorage := localStorage s; allocated := allocated s |}.
Definition with_dropletInfo v s :=
  {| installState := installState s; listener := listener s; digitalOcean := digitalOcean s;
     dropletInfo := v; managementApiUrl := managementApiUrl s;
     startTimestamp := startTimestamp s; refreshInterval := refreshInterval s;
     refreshing := refreshing s; installPromise := installPromise s;
     progressCalls := progressCalls s; trustedCertificates := trustedCertificates s;
     localStorage := localStorage s; allocated := allocated s |}.
Definition with_managementApiUrl v s :=
  {| installState := installState s; listener := listener s; digitalOcean := digitalOcean s;
     dropletInfo := dropletInfo s; managementApiUrl := v;
     startTimestamp := startTimestamp s; refreshInterval := refreshInterval s;
     refreshing := refreshing s; installPromise := installPromise s;
     progressCalls := progressCalls s; trustedCertificates := trustedCertificates s;
     localStorage := localStorage s; allocated := allocated s |}.
Definition with_refreshInterval v s :=
  {| installState := installState s; listener := listener s; digitalOcean := digitalOcean s;
     dropletInfo := dropletInfo s; managementApiUrl := managementApiUrl s;
     startTimestamp := startTimestamp s; refreshInterval := v;
     refreshing := refreshing s; installPromise := installPromise s;
     progressCalls := progressCalls s; trustedCertificates := trustedCertificates s;
     localStorage := localStorage s; allocated := allocated s |}.
Definition with_refreshing v s :=
  {| installState := installState s; listener := listener s; digitalOcean := digitalOcean s;
     dropletInfo := dropletInfo s; managementApiUrl := managementApiUrl s;
     startTimestamp := startTimestamp s; refreshInterval := refreshInterval s;
     refreshing := v; installPromise := installPromise s;
     progressCalls := progressCalls s; trustedCertificates := trustedCertificates s;
     localStorage := localStorage s; allocated := allocated s |}.
Definition with_installPromise v s :=
  {| installState := installState s; listener := listener s; digitalOcean := digitalOcean s;
     dropletInfo := dropletInfo s; managementApiUrl := managementApiUrl s;
     startTimestamp := startTimestamp s; refreshInterval := refreshInterval s;
     refreshing := refreshing s; installPromise := v;
     progressCalls := progressCalls s; trustedCertificates := trustedCertificates s;
     localStorage := localStorage s; allocated := allocated s |}.
Definition with_progressCalls v s :=
  {| installState := installState s; listener := listener s; digitalOcean := digitalOcean s;
     dropletInfo := dropletInfo s; managementApiUrl := managementApiUrl s;
     startTimestamp := startTimestamp s; refreshInterval := refreshInterval s;
     refreshing := refreshing s; installPromise := installPromise s;
     progressCalls := v; trustedCertificates := trustedCertificates s;
     localStorage := localStorage s; allocated := allocated s |}.
Definition with_trustedCertificates v s :=
  {| installState := installState s; listener := listener s; digitalOcean := digitalOcean s;
     dropletInfo := dropletInfo s; managementApiUrl := managementApiUrl s;
     startTimestamp := startTimestamp s; refreshInterval := refreshInterval s;
     refreshing := refreshing s; installPromise := installPromise s;
     progressCalls := progressCalls s; trustedCertificates := v;
     localStorage := localStorage s; allocated := allocated s |}.
Definition with_localStorage v s :=
  {| installState := installState s; listener := listener s; digitalOcean := digitalOcean s;
     dropletInfo := dropletInfo s; managementApiUrl := managementApiUrl s;
     startTimestamp := startTimestamp s; refreshInterval := refreshInterval s;
     refreshing := refreshing s; installPromise := installPromise s;
     progressCalls := progressCalls s; trustedCertificates := trustedCertificates s;
     localStorage := v; allocated := allocated s |}.
Definition with_allocated v s :=
  {| installState := installState s; listener := listener s; digitalOcean := digitalOcean s;
     dropletInfo := dropletInfo s; managementApiUrl := managementApiUrl s;
     startTimestamp := startTimestamp s; refreshInterval := refreshInterval s;
     refreshing := refreshing s; installPromise := installPromise s;
     progressCalls := progressCalls s; trustedCertificates := trustedCertificates s;
     localStorage := localStorage s; allocated := v |}.

Definition startsWithCaseInsensitive (text prefix : string) : bool :=
  String.eqb (Js.toLowerCase (Js.sliceTo (String.length prefix) text))
             (Js.toLowerCase prefix).

Definition installProgress (s : DigitalOceanServer) : Q :=
  match installState s with
  | UNKNOWN => 1 # 10
  | CREATED => 5 # 10
  | BOOTED => 6 # 10
  | SUCCESS => 1
  | _ => 0
  end.

(** [this.listener(this.installProgress())] when a listener is set. *)
Definition notifyListener (s : DigitalOceanServer) : DigitalOceanServer :=
  match listener s with
  | Some cb => with_progressCalls (progressCalls s ++ [(cb, installProgress s)]) s
  | None => s
  end.

Definition setProgressListener (cb : nat) (s : DigitalOceanServer) : DigitalOceanServer :=
  notifyListener (with_listener (Some cb) s).

Definition getInstallCompletedStorageKey (s : DigitalOceanServer) : string :=
  "droplet-" +:+ pretty (id (dropletInfo s)) +:+ "-install-completed".

Definition setInstallCompleted (s : DigitalOceanServer) : DigitalOceanServer :=
  with_localStorage (<[getInstallCompletedStorageKey s := "true"]> (localStorage s)) s.

Definition isInstallCompleted (s : DigitalOceanServer) : bool :=
  bool_decide (localStorage s !! getInstallCompletedStorageKey s = Some "true").

Definition setInstallState (newState : InstallState) (s : DigitalOceanServer)
  : DigitalOceanServer :=
  if stateGe (installState s) SUCCESS then s
  else
    let s1 := with_installState newState s in
    let s2 := if decide (installState s1 = SUCCESS) then setInstallCompleted s1 else s1 in
    notifyListener s2.

(** Callback to be invoked once the server is deleted. *)
Definition onDelete (s : DigitalOceanServer) : DigitalOceanServer :=
  setInstallState DELETED s.

(** The public ipv4 address: the first network of type 'public'. *)
Fixpoint publicAddress (nets : list Network) : option string :=
  match nets with
  | [] => None
  | network :: rest =>
      if String.eqb (net_type network) "public" then Some (ip_address network)
      else publicAddress rest
  end.

Definition ipv4Address (d : DropletInfo) : option string :=
  publicAddress (networks_v4 d).

Definition trustCertificate (fingerprint : string) (s : DigitalOceanServer)
  : DigitalOceanServer :=
  with_trustedCertificates (trustedCertificates s ++ [fingerprint]) s.

Definition setManagementApiUrl (url : string) (s : DigitalOceanServer)
  : DigitalOceanServer :=
  with_managementApiUrl (Some url) s.

(** [getHost]: a new [DigitalOceanHost] with the session and the droplet
    info of the moment. *)
Definition getHost (s : DigitalOceanServer) : DigitalOceanHost * DigitalOceanServer :=
  ({| host_ref := allocated s;
      host_digitalOcean := digitalOcean s;
      host_dropletInfo := dropletInfo s |},
   with_allocated (S (allocated s)) s).

(** The callback of the interval of [waitOnInstall]. *)
Definition checkInstallState (s : DigitalOceanServer) : DigitalOceanServer :=
  match installPromise s with
  | Polling =>
      if stateLt (installState s) SUCCESS then s
      else if decide (installState s = SUCCESS) then
        with_installPromise (Settled (Ok ())) s
      else if decide (installState s = ERROR) then
        with_installPromise (Settled (Throw ServerInstallFailedError)) s
      else if decide (installState s = DELETED) then
        with_installPromise (Settled (Throw DeletedServerError)) s
      else with_installPromise Cleared s
  | _ => s
  end.

Section Tags.
Context {hex : HexEncoding}.

(** One round of the loop of [getTagMap]; [ret] is a plain object. *)
Definition addTag (ret : gmap string string) (tag : string) : gmap string string :=
  let keyValuePrefix := KEY_VALUE_TAG +:+ ":" in
  if negb (startsWithCaseInsensitive tag keyValuePrefix) then ret
  else
    let keyValuePair := Js.sliceFrom (String.length keyValuePrefix) tag in
    let '(key, hexValue) := Js.split2 ":" keyValuePair in
    match hexToString hexValue with
    | Ok v => Js.objectSet ret (Js.toLowerCase key) v
    | Throw _ => ret
    end.

(** The key-value map stored in the tags: the own properties of the object
    that [getTagMap] returns.  The class looks up the five keys above in it,
    none of which is a member of [Object.prototype]: for them the bracket
    lookup is the lookup of an own property, and [Object.keys] counts the own
    properties. *)
Definition getTagMap (d : DropletInfo) : gmap string string :=
  foldl addTag ∅ (tags d).

(** A tag is there for the class when the test [if (tagMap[k])] passes: the
    key is bound to a text that is not empty. *)
Definition present (tagMap : gmap string string) (k : string) : Prop :=
  exists v, tagMap !! k = Some v /\ v <> "".

(** The management API address computed from a tag map and an address. *)
Definition managementApiAddress (tagMap : gmap string string) (ip : option string)
  : Result string :=
  apiAddress ←
    (if Js.truthy (tagMap !! API_URL_TAG) then Ok (default "" (tagMap !! API_URL_TAG))
     else
       let portNumber := tagMap !! DEPRECATED_API_PORT_TAG in
       if negb (Js.truthy portNumber) then
         Throw (OtherError "Could not get API port number")
       else if negb (Js.truthy ip) then
         Throw (OtherError "API hostname not set")
       else
         let apiAddress :=
           "https://" +:+ default "" ip +:+ ":" +:+ default "" portNumber +:+ "/" in
         let apiPrefix := tagMap !! DEPRECATED_API_PREFIX_TAG in
         if Js.truthy apiPrefix then Ok (apiAddress +:+ default "" apiPrefix +:+ "/")
         else Ok apiAddress);
  if negb (Js.endsWith apiAddress "/") then Ok (apiAddress +:+ "/")
  else Ok apiAddress.

Definition getManagementApiAddress (d : DropletInfo) : Result string :=
  managementApiAddress (getTagMap d) (ipv4Address d).

Definition getCertificateFingerprint (d : DropletInfo) : Result string :=
  let fingerprint := getTagMap d !! CERTIFICATE_FINGERPRINT_TAG in
  if Js.truthy fingerprint then Ok (Js.btoa (default "" fingerprint))
  else Throw (OtherError "certificate fingerprint unavailable").

(** Returns true on success, else false. *)
Definition setApiUrlAndCertificate (s : DigitalOceanServer) : bool * DigitalOceanServer :=
  match
    (certificateFingerprint ← getCertificateFingerprint (dropletInfo s);
     apiAddress ← getManagementApiAddress (dropletInfo s);
     Ok (certificateFingerprint, apiAddress))
  with
  | Ok (certificateFingerprint, apiAddress) =>
      (true, setManagementApiUrl apiAddress (trustCertificate certificateFingerprint s))
  | Throw _ => (false, s)
  end.

(** The fingerprint and the endpoint can both be read from the tags. *)
Definition resolvable (d : DropletInfo) : Prop :=
  exists fingerprint apiAddress,
    getCertificateFingerprint d = Ok fingerprint
    /\ getManagementApiAddress d = Ok apiAddress.

(** [updateInstallState] of [pollInstallState]; [now] is what [Date.now()]
    returns. *)
Definition updateInstallState (now : Z) (s : DigitalOceanServer) : DigitalOceanServer :=
  if stateGe (installState s) SUCCESS then s
  else
    let tagMap := getTagMap (dropletInfo s) in
    if Js.truthy (tagMap !! INSTALL_ERROR_TAG) then setInstallState ERROR s
    else if (TIMEOUT_MS <=? now - startTimestamp s)%Z then setInstallState ERROR s
    else
      let '(ok, s1) := setApiUrlAndCertificate s in
      if ok then setInstallState SUCCESS s1
      else if (0 <? size tagMap)%nat then setInstallState BOOTED s
      else if String.eqb (status (dropletInfo s)) "active" then setInstallState CREATED s
      else s.

(** The constructor, which runs [pollInstallState]: [start] and [now] are
    the two readings of the clock.  The world outside the object starts
    empty. *)
Definition new (session : DigitalOceanSession) (d : DropletInfo) (start now : Z)
  : DigitalOceanServer :=
  let s :=
    {| installState := UNKNOWN; listener := None; digitalOcean := session;
       dropletInfo := d; managementApiUrl := None;
       startTimestamp := start; refreshInterval := false; refreshing := 0;
       installPromise := NotCalled; progressCalls := [];
       trustedCertificates := []; localStorage := ∅; allocated := 0 |} in
  let s := updateInstallState now s in
  if stateGe (installState s) SUCCESS then s
  else with_refreshInterval true s.

(** What the callback of the 3 s interval does once [getDroplet] has
    settled with [r]. *)
Definition refreshed (r : Result DropletInfo) (now : Z) (s : DigitalOceanServer)
  : DigitalOceanServer :=
  match r with
  | Throw _ => with_refreshInterval false (setInstallState ERROR s)
  | Ok newDropletInfo =>
      let s := with_dropletInfo newDropletInfo s in
      let s := updateInstallState now s in
      if stateGe (installState s) SUCCESS then with_refreshInterval false s
      else s
  end.

(** What can happen to a server, one event per turn of the event loop. *)
Inductive Event :=
| SetProgressListener (cb : nat)
| WaitOnInstall
| CheckInterval
| RefreshInterval
| DropletFetched (r : Result DropletInfo) (now : Z)
| GetHost
| Deleted.

(** An event that cannot happen in a state (an interval that is cleared, an
    answer to no request) leaves the state as it is.  The model follows one
    call of [waitOnInstall]. *)
Definition step (s : DigitalOceanServer) (e : Event) : DigitalOceanServer :=
  match e with
  | SetProgressListener cb => setProgressListener cb s
  | WaitOnInstall =>
      match installPromise s with
      | NotCalled => with_installPromise Polling s
      | _ => s
      end
  | CheckInterval => checkInstallState s
  | RefreshInterval =>
      if refreshInterval s then
        if stateGe (installState s) SUCCESS then with_refreshInterval false s
        else with_refreshing (S (refreshing s)) s
      else s
  | DropletFetched r now =>
      match refreshing s with
      | O => s
      | S n => refreshed r now (with_refreshing n s)
      end
  | GetHost => (getHost s).2
  | Deleted => onDelete s
  end.

Definition run (s : DigitalOceanServer) (es : list Event) : DigitalOceanServer :=
  foldl step s es.

(** A droplet info that shows neither an error nor a finished
    installation. *)
Definition quiet (d : DropletInfo) : Prop :=
  ~ present (getTagMap d) INSTALL_ERROR_TAG /\ ~ resolvable d.

(** The events of a server that is left alone before the deadline: no
    deletion, no failed refresh, and every refresh that succeeds brings a
    quiet droplet info less than [TIMEOUT_MS] after [start]. *)
Definition calm (start : Z) (e : Event) : Prop :=
  match e with
  | DropletFetched (Ok d) now => quiet d /\ (now - start < TIMEOUT_MS)%Z
  | DropletFetched (Throw _) _ => False
  | Deleted => False
  | _ => True
  end.

End Tags.

End DigitalOcean.

(** ** The direct-poll monitor: [GcpServer] *)

Module Gcp.

Definition GUEST_ATTRIBUTES_POLLING_INTERVAL_MS : Z := 5 * 1000.

(** The fields of [gcp_api.InstanceLocator] that the class reads. *)
Record InstanceLocator := {
  instanceId : string;
  zoneId : string }.

(** What [apiClient.getGuestAttributes] resolves to: every level may be
    missing. *)
Record Entry := {
  key : string;
  value : string }.

Record QueryValue := { items : option (list Entry) }.

Record GuestAttributes := { queryValue : option QueryValue }.

(** A [GcpHost] object: [host_ref] is its identity on the heap; the
    completion promise and the API client are references. *)
Record GcpHost := {
  host_ref : nat;
  host_locator : InstanceLocator;
  addressName : string;
  host_apiClient : nat }.

(** Where a call of [waitOnInstall] stands: not called, suspended at one of
    its three [await]s, returned (the promise is fulfilled) or thrown (the
    promise is rejected). *)
Inductive WaitCall :=
| NotCalled
| AwaitCompletion
| AwaitAttributes
| AwaitSleep
| Returned
| Thrown (e : Error).

Record GcpServer := {
  gcpHost : GcpHost;
  installState : InstallState;
  listener : option nat;
  locator : InstanceLocator;
  apiClient : nat;
  (* ShadowboxServer *)
  managementApiUrl : option string;
  (* waitOnInstall: its first call, and the calls made after the first *)
  call : WaitCall;
  moreCalls : list WaitCall;
  (* outside the object *)
  progressCalls : list (nat * Q);
  trustedCertificates : list string;
  allocated : nat }.

Definition with_installState v s :=
  {| gcpHost := gcpHost s; installState := v; listener := listener s;
     locator := locator s; apiClient := apiClient s;
     managementApiUrl := managementApiUrl s; call := call s;
     moreCalls := moreCalls s;
     progressCalls := progressCalls s; trustedCertificates := trustedCertificates s;
     allocated := allocated s |}.
Definition with_listener v s :=
  {| gcpHost := gcpHost s; installState := installState s; listener := v;
     locator := locator s; apiClient := apiClient s;
     managementApiUrl := managementApiUrl s; call := call s;
     moreCalls := moreCalls s;
     progressCalls := progressCalls s; trustedCertificates := trustedCertificates s;
     allocated := allocated s |}.
Definition with_managementApiUrl v s :=
  {| gcpHost := gcpHost s; installState := installState s; listener := listener s;
     locator := locator s; apiClient := apiClient s;
     managementApiUrl := v; call := call s;
     moreCalls := moreCalls s;
     progressCalls := progressCalls s; trustedCertificates := trustedCertificates s;
     allocated := allocated s |}.
Definition with_call v s :=
  {| gcpHost := gcpHost s; installState := installState s; listener := listener s;
     locator := locator s; apiClient := apiClient s;
     managementApiUrl := managementApiUrl s; call := v;
     moreCalls := moreCalls s;
     progressCalls := progressCalls s; trustedCertificates := trustedCertificates s;
     allocated := allocated s |}.
Definition with_moreCalls v s :=
  {| gcpHost := gcpHost s; installState := installState s; listener := listener s;
     locator := locator s; apiClient := apiClient s;
     managementApiUrl := managementApiUrl s; call := call s;
     moreCalls := v;
     progressCalls := progressCalls s; trustedCertificates := trustedCertificates s;
     allocated := allocated s |}.
Definition with_progressCalls v s :=
  {| gcpHost := gcpHost s; installState := installState s; listener := listener s;
     locator := locator s; apiClient := apiClient s;
     managementApiUrl := managementApiUrl s; call := call s;
     moreCalls := moreCalls s;
     progressCalls := v; trustedCertificates := trustedCertificates s;
     allocated := allocated s |}.
Definition with_trustedCertificates v s :=
  {| gcpHost := gcpHost s; installState := installState s; listener := listener s;
     locator := locator s; apiClient := apiClient s;
     managementApiUrl := managementApiUrl s; call := call s;
     moreCalls := moreCalls s;
     progressCalls := progressCalls s; trustedCertificates := v;
     allocated := allocated s |}.

(** The constructor: it builds the one [GcpHost] of the server. *)
Definition new (loc : InstanceLocator) (instanceName : string) (client : nat)
  : GcpServer :=
  {| gcpHost := {| host_ref := 0; host_locator := loc;
                   addressName := instanceName; host_apiClient := client |};
     installState := UNKNOWN; listener := None; locator := loc;
     apiClient := client; managementApiUrl := None; call := NotCalled;
     moreCalls := [];
     progressCalls := []; trustedCertificates := []; allocated := 1 |}.

Definition getHost (s : GcpServer) : GcpHost * GcpServer := (gcpHost s, s).

Definition isInstallCompleted (s : GcpServer) : bool :=
  stateGe (installState s) SUCCESS.

Definition installProgress (s : GcpServer) : Q :=
  match installState s with
  | UNKNOWN => 1 # 10
  | CREATED => 2 # 10
  | BOOTED => 8 # 10
  | SUCCESS => 1
  | _ => 0
  end.

Definition notifyListener (s : GcpServer) : GcpServer :=
  match listener s with
  | Some cb => with_progressCalls (progressCalls s ++ [(cb, installProgress s)]) s
  | None => s
  end.

Definition setProgressListener (cb : nat) (s : GcpServer) : GcpServer :=
  notifyListener (with_listener (Some cb) s).

Definition setInstallState (newState : InstallState) (s : GcpServer) : GcpServer :=
  notifyListener (with_installState newState s).

Definition onDelete (s : GcpServer) : GcpServer :=
  with_installState DELETED s.

Definition trustCertificate (fingerprint : string) (s : GcpServer) : GcpServer :=
  with_trustedCertificates (trustedCertificates s ++ [fingerprint]) s.

Definition setManagementApiUrl (url : string) (s : GcpServer) : GcpServer :=
  with_managementApiUrl (Some url) s.

(** The map that [getOutlineGuestAttributes] builds from the answer of the
    API. *)
Definition getOutlineGuestAttributes (guestAttributes : option GuestAttributes)
  : gmap string string :=
  let attributes :=
    match guestAttributes with
    | Some g =>
        match queryValue g with
        | Some q => default [] (items q)
        | None => []
        end
    | None => []
    end in
  foldl (fun result entry => <[key entry := value entry]> result) ∅ attributes.

(** [outlineGuestAttributes.has(k)] *)
Definition has (attrs : gmap string string) (k : string) : bool :=
  bool_decide (is_Some (attrs !! k)).

(** The body of the loop of [waitOnInstall] between the answer of
    [getOutlineGuestAttributes] and the [sleep]: the new state of the
    server, and the error when the body throws. *)
Definition pollBody (outlineGuestAttributes : gmap string string) (s : GcpServer)
  : GcpServer * option Error :=
  let s1 :=
    if (0 <? size outlineGuestAttributes)%nat && stateLt (installState s) BOOTED
    then setInstallState BOOTED s else s in
  if has outlineGuestAttributes "apiUrl" && has outlineGuestAttributes "certSha256" then
    let certSha256 := default "" (outlineGuestAttributes !! "certSha256") in
    let apiUrl := default "" (outlineGuestAttributes !! "apiUrl") in
    (setInstallState SUCCESS (setManagementApiUrl apiUrl (trustCertificate certSha256 s1)),
     None)
  else if has outlineGuestAttributes "install-error" then
    (setInstallState ERROR s1, Some ServerInstallFailedError)
  else (s1, None).

(** The test of the [while]: fetch again, or return. *)
Definition loopTest (s : GcpServer) : GcpServer :=
  if stateLt (installState s) SUCCESS then with_call AwaitAttributes s
  else with_call Returned s.

(** The continuations of the three [await]s of a call of [waitOnInstall]. *)
Inductive Continuation :=
| Completion (r : Result unit)
| Attributes (r : Result (option GuestAttributes))
| Sleep.

(** A call of [waitOnInstall] resumes; [call s] is the call that runs.  A
    continuation of an [await] the call is not suspended at leaves the
    state as it is. *)
Definition resume (k : Continuation) (s : GcpServer) : GcpServer :=
  match k with
  | Completion r =>
      match call s with
      | AwaitCompletion =>
          match r with
          | Ok _ => loopTest (setInstallState CREATED s)
          | Throw e => with_call (Thrown e) s
          end
      | _ => s
      end
  | Attributes r =>
      match call s with
      | AwaitAttributes =>
          match r with
          | Ok guestAttributes =>
              let '(s1, thrown) := pollBody (getOutlineGuestAttributes guestAttributes) s in
              match thrown with
              | Some e => with_call (Thrown e) s1
              | None => with_call AwaitSleep s1
              end
          | Throw e => with_call (Thrown e) s
          end
      | _ => s
      end
  | Sleep =>
      match call s with
      | AwaitSleep => loopTest s
      | _ => s
      end
  end.

(** What can happen to a server, one event per turn of the event loop.
    [waitOnInstall] is public and has no guard: every call of it runs the
    same body on the same server.  [WaitOnInstall] starts the first call,
    and a further call when the first was made; [CompletionSettled],
    [AttributesFetched] and [SleepDone] resume the first call, and
    [Resumed i k] resumes the call number [i] of the further ones. *)
Inductive Event :=
| SetProgressListener (cb : nat)
| WaitOnInstall
| CompletionSettled (r : Result unit)
| AttributesFetched (r : Result (option GuestAttributes))
| SleepDone
| GetHost
| Deleted
| Resumed (i : nat) (k : Continuation).

Definition step (s : GcpServer) (e : Event) : GcpServer :=
  match e with
  | SetProgressListener cb => setProgressListener cb s
  | WaitOnInstall =>
      match call s with
      | NotCalled => with_call AwaitCompletion s
      | _ => with_moreCalls (moreCalls s ++ [AwaitCompletion]) s
      end
  | CompletionSettled r => resume (Completion r) s
  | AttributesFetched r => resume (Attributes r) s
  | SleepDone => resume Sleep s
  | GetHost => (getHost s).2
  | Deleted => onDelete s
  | Resumed i k =>
      match moreCalls s !! i with
      | Some c =>
          let t := resume k (with_call c s) in
          with_moreCalls (<[i := call t]> (moreCalls s)) (with_call (call s) t)
      | None => s
      end
  end.

Definition run (s : GcpServer) (es : list Event) : GcpServer :=
  foldl step s es.

(** Until the instance-exists signal resolves for the first call, nothing
    but a deletion has set the state (when there is no further call). *)
Definition untouched (s : GcpServer) : Prop :=
  call s = NotCalled \/ call s = AwaitCompletion ->
  installState s = UNKNOWN \/ installState s = DELETED.

(** The first call of [waitOnInstall] is still polling: it will fetch
    again. *)
Definition polling (s : GcpServer) : bool :=
  match call s with
  | AwaitAttributes | AwaitSleep => true
  | _ => false
  end.

End Gcp.

(** ** The order of the states that the spec words *)

(** Between a state and the state after the next event: no change once the
    state is terminal, and no lower number before. *)
Definition claimedOrder (a b : InstallState) : Prop :=
  if stateGe a SUCCESS then b = a else (stateNumber a <= stateNumber b)%Z.

(** ** Sample inputs *)

Definition sampleLocator : Gcp.InstanceLocator :=
  {| Gcp.instanceId := "instance-1"; Gcp.zoneId := "us-east1-b" |}.

(** A server as the constructor leaves it. *)
Definition sampleGcp : Gcp.GcpServer := Gcp.new sampleLocator "outline-1" 0.

(** The answer of the guest-attribute API with the given entries. *)
Definition answer (l : list (string * string)) : option Gcp.GuestAttributes :=
  Some {| Gcp.queryValue :=
            Some {| Gcp.items :=
                      Some (map (fun p => {| Gcp.key := p.1; Gcp.value := p.2 |}) l) |} |}.

(** A server whose call of [waitOnInstall] waits for the attributes. *)
Definition gcpFetching : Gcp.GcpServer :=
  Gcp.run sampleGcp [Gcp.WaitOnInstall; Gcp.CompletionSettled (Ok ())].

(** A server whose installation failed. *)
Definition gcpFailed : Gcp.GcpServer :=
  Gcp.step gcpFetching (Gcp.AttributesFetched (Ok (answer [("install-error", "disk full")]))).

(** The installation succeeds, the call returns, and [waitOnInstall] is
    called again. *)
Definition gcpCalledAgain : Gcp.GcpServer :=
  Gcp.run gcpFetching
    [Gcp.AttributesFetched
       (Ok (answer [("apiUrl", "https://203.0.113.7:8080/abc"); ("certSha256", "4d61")]));
     Gcp.SleepDone; Gcp.WaitOnInstall].

(** The server is deleted while the fetch that will report the install
    error is on its way. *)
Definition gcpDeletedThenFailed : Gcp.GcpServer :=
  Gcp.run gcpFetching
    [Gcp.Deleted; Gcp.AttributesFetched (Ok (answer [("install-error", "disk full")]))].

(** The server is deleted while the call of [waitOnInstall] sleeps. *)
Definition gcpDeletedAsleep : Gcp.GcpServer :=
  Gcp.run gcpFetching
    [Gcp.AttributesFetched (Ok (answer [])); Gcp.Deleted; Gcp.SleepDone].

(** A droplet with a private and a public address. *)
Definition droplet (st : string) (tgs : list string) : DigitalOcean.DropletInfo :=
  {| DigitalOcean.id := 42;
     DigitalOcean.status := st;
     DigitalOcean.tags := tgs;
     DigitalOcean.networks_v4 :=
       [ {| DigitalOcean.net_type := "private"; DigitalOcean.ip_address := "10.0.0.2" |};
         {| DigitalOcean.net_type := "public"; DigitalOcean.ip_address := "203.0.113.7" |} ];
     DigitalOcean.size_transfer := 1;
     DigitalOcean.size_price_monthly := 5;
     DigitalOcean.region_slug := "nyc3" |}.

(** Tags of an old image: port 8080 ("38303830"), and the prefix v1
    ("7631"). *)
Definition legacyTags : list string := ["kv:apiport:38303830"].
Definition legacyTagsV1 : list string := ["kv:apiport:38303830"; "kv:apiprefix:7631"].

(** Tags of a finished installation: the URL https://h/x and the
    fingerprint "Ma". *)
Definition finishedTags : list string :=
  ["kv:apiurl:68747470733a2f2f682f78"; "kv:certsha256:4d61"].

(** The error tag, with the value "true". *)
Definition errorTags : list string := ["kv:install-error:74727565"].

(** The error tag with an empty value. *)
Definition emptyErrorTags : list string := ["kv:install-error:"].

(** A tag whose key is '__proto__'. *)
Definition protoTags : list string := ["kv:__proto__:61"].

(** Servers built with the model of [hexToString]. *)

(** A server that has seen one tag: BOOTED. *)
Definition doBooted : DigitalOcean.DigitalOceanServer :=
  DigitalOcean.new (hex := hexToStringModel) 7 (droplet "new" ["kv:a:61"]) 0 0.

(** Its next refresh finds the droplet active and the tags gone. *)
Definition doDemoted : DigitalOcean.DigitalOceanServer :=
  DigitalOcean.run (hex := hexToStringModel) doBooted
    [DigitalOcean.RefreshInterval;
     DigitalOcean.DropletFetched (Ok (droplet "active" [])) 3000].

(** A server without tags on which [waitOnInstall] was called. *)
Definition doWaiting : DigitalOcean.DigitalOceanServer :=
  DigitalOcean.step (hex := hexToStringModel)
    (DigitalOcean.new (hex := hexToStringModel) 7 (droplet "new" []) 0 0)
    DigitalOcean.WaitOnInstall.

(** The same with its first refresh on its way. *)
Definition doRefreshing : DigitalOcean.DigitalOceanServer :=
  DigitalOcean.step (hex := hexToStringModel) doWaiting DigitalOcean.RefreshInterval.

(** The first refresh fails, 3 s after the construction, and the promise of
    [waitOnInstall] is checked. *)
Definition doRefreshFailed : DigitalOcean.DigitalOceanServer :=
  DigitalOcean.run (hex := hexToStringModel) doRefreshing
    [DigitalOcean.DropletFetched (Throw (OtherError "network")) 3000;
     DigitalOcean.CheckInterval].

(** No refresh is ever answered: the 3 s interval fires 101 times (303 s),
    then the promise of [waitOnInstall] is checked. *)
Definition doStalled : DigitalOcean.DigitalOceanServer :=
  DigitalOcean.run (hex := hexToStringModel) doWaiting
    (replicate 101 DigitalOcean.RefreshInterval ++ [DigitalOcean.CheckInterval]).

(** [doWaiting] with other cached droplet infos. *)
Definition doWith (d : DigitalOcean.DropletInfo) : DigitalOcean.DigitalOceanServer :=
  DigitalOcean.with_dropletInfo d doWaiting.

(** Tactics for concrete servers: the state is not terminal, a tag is not
    present, the droplet info is not resolvable. *)
Ltac not_terminal :=
  let H := fresh in
  intros [H|[H|H]]; vm_compute in H; discriminate H.

Ltac tag_absent :=
  let v := fresh in let H := fresh in
  intros (v & H & _); vm_compute in H; discriminate H.

Ltac not_resolvable :=
  let H := fresh in
  intros (? & ? & H & _); vm_compute in H; discriminate H.

(** ** Further definitions: tags, listeners and promises *)

(** [s.includes(c)] for one character [c]. *)
Fixpoint includesChar (c : ascii) (s : string) : bool :=
  match s with
  | EmptyString => false
  | String x r => Ascii.eqb x c || includesChar c r
  end.

(** The test of [getTagMap] on a tag: it starts with "kv:", in any case. *)
Definition isKeyValueTag (tag : string) : bool :=
  DigitalOcean.startsWithCaseInsensitive tag (DigitalOcean.KEY_VALUE_TAG +:+ ":").

(** The listener of a cached-refresh server is informed: the last call it
    received carries the progress of the current state. *)
Definition doInformed (s : DigitalOcean.DigitalOceanServer) : Prop :=
  forall cb, DigitalOcean.listener s = Some cb ->
    last (DigitalOcean.progressCalls s) = Some (cb, DigitalOcean.installProgress s).

(** The same for a direct-poll server. *)
Definition gcpInformed (s : Gcp.GcpServer) : Prop :=
  forall cb, Gcp.listener s = Some cb ->
    last (Gcp.progressCalls s) = Some (cb, Gcp.installProgress s).

(** The promise of [waitOnInstall] of a cached-refresh server says what the
    state is: fulfilled in SUCCESS, rejected with ServerInstallFailedError
    in ERROR and with DeletedServerError in DELETED, and never left pending
    with its interval cleared. *)
Definition doSettledAsState (s : DigitalOcean.DigitalOceanServer) : Prop :=
  match DigitalOcean.installPromise s with
  | DigitalOcean.NotCalled | DigitalOcean.Polling => True
  | DigitalOcean.Cleared => False
  | DigitalOcean.Settled (Ok _) => DigitalOcean.installState s = SUCCESS
  | DigitalOcean.Settled (Throw ServerInstallFailedError) =>
      DigitalOcean.installState s = ERROR
  | DigitalOcean.Settled (Throw DeletedServerError) =>
      DigitalOcean.installState s = DELETED
  | DigitalOcean.Settled (Throw (OtherError _)) => False
  end.

(** Where a direct-poll server stands with the certificate: nothing is
    trusted yet and the state is not SUCCESS, or one fingerprint was trusted
    and the endpoint recorded, and [waitOnInstall] is at its last sleep or
    has returned. *)
Definition gcpTrustStage (trusted0 : list string) (s : Gcp.GcpServer) : Prop :=
  (Gcp.trustedCertificates s = trusted0
   /\ Gcp.installState s <> SUCCESS
   /\ (Gcp.installState s = ERROR -> exists e, Gcp.call s = Gcp.Thrown e)
   /\ (Gcp.call s = Gcp.Returned -> Gcp.installState s = DELETED))
  \/ (exists c u,
        Gcp.trustedCertificates s = (trusted0 ++ [c])%list
        /\ Gcp.managementApiUrl s = Some u
        /\ (Gcp.installState s = SUCCESS \/ Gcp.installState s = DELETED)
        /\ (Gcp.call s = Gcp.AwaitSleep \/ Gcp.call s = Gcp.Returned)).

(** ** [GcpHost.delete]

    The host of a direct-poll server deletes the server in three steps: it
    awaits the completion of the creation, awaits the release of the static
    IP address, then asks for the deletion of the instance, without waiting
    for it, and calls the server's [onDelete].  [Zone] (../model/gcp) is not
    among the sources: the region id of a zone is a parameter. *)

Module GcpHostDelete.

(** The calls that the host makes on the API client. *)
Inductive ApiCall :=
| DeleteStaticIp (regionId : string) (locator : Gcp.InstanceLocator) (addressName : string)
| DeleteInstance (locator : Gcp.InstanceLocator).

(** Where the one call of [delete] stands. *)
Inductive DeleteCall :=
| NotCalled
| AwaitCompletion
| AwaitStaticIp
| Returned
| Thrown (e : Error).

(** A server, the call of [delete] on its host, and the calls that the API
    client received. *)
Record Managed := {
  server : Gcp.GcpServer;
  deleteCall : DeleteCall;
  apiCalls : list ApiCall }.

Definition start (s : Gcp.GcpServer) : Managed :=
  {| server := s; deleteCall := NotCalled; apiCalls := [] |}.

(** The events of the server, and the continuations of the two [await]s of
    [delete].  The server's [onDelete] is private to the host: it runs only
    as the last step of [delete].  The host and [waitOnInstall] await the
    same promise; the model lets each of them see any outcome. *)
Inductive Event :=
| Server (e : Gcp.Event)
| Delete
| CompletionSettled (r : Result unit)
| StaticIpDeleted (r : Result unit).

Section Zone.
Variable regionId : string -> string.

Definition step (m : Managed) (e : Event) : Managed :=
  let host := Gcp.gcpHost (server m) in
  match e with
  | Server Gcp.Deleted => m
  | Server e =>
      {| server := Gcp.step (server m) e; deleteCall := deleteCall m;
         apiCalls := apiCalls m |}
  | Delete =>
      match deleteCall m with
      | NotCalled =>
          {| server := server m; deleteCall := AwaitCompletion; apiCalls := apiCalls m |}
      | _ => m
      end
  | CompletionSettled r =>
      match deleteCall m with
      | AwaitCompletion =>
          match r with
          | Ok _ =>
              {| server := server m; deleteCall := AwaitStaticIp;
                 apiCalls :=
                   apiCalls m ++
                   [DeleteStaticIp (regionId (Gcp.zoneId (Gcp.host_locator host)))
                      (Gcp.host_locator host) (Gcp.addressName host)] |}
          | Throw e =>
              {| server := server m; deleteCall := Thrown e; apiCalls := apiCalls m |}
          end
      | _ => m
      end
  | StaticIpDeleted r =>
      match deleteCall m with
      | AwaitStaticIp =>
          match r with
          | Ok _ =>
              {| server := Gcp.step (server m) Gcp.Deleted; deleteCall := Returned;
                 apiCalls := apiCalls m ++ [DeleteInstance (Gcp.host_locator host)] |}
          | Throw e =>
              {| server := server m; deleteCall := Thrown e; apiCalls := apiCalls m |}
          end
      | _ => m
      end
  end.

Definition run (m : Managed) (es : list Event) : Managed := foldl step m es.

(** The two calls of a deletion that went through, in their order. *)
Definition bothCalls (s : Gcp.GcpServer) : list ApiCall :=
  let host := Gcp.gcpHost s in
  [DeleteStaticIp (regionId (Gcp.zoneId (Gcp.host_locator host)))
     (Gcp.host_locator host) (Gcp.addressName host);
   DeleteInstance (Gcp.host_locator host)].

(** What holds of the calls and of the state at each stage of [delete]. *)
Definition staged (m : Managed) : Prop :=
  match deleteCall m with
  | NotCalled | AwaitCompletion =>
      apiCalls m = [] /\ Gcp.installState (server m) <> DELETED
  | AwaitStaticIp =>
      apiCalls m = take 1 (bothCalls (server m)) /\ Gcp.installState (server m) <> DELETED
  | Returned => apiCalls m = bothCalls (server m)
  | Thrown _ =>
      (apiCalls m = [] \/ apiCalls m = take 1 (bothCalls (server m)))
      /\ Gcp.installState (server m) <> DELETED
  end.

End Zone.

End GcpHostDelete.

(** ** The server management view (ServerManagementApp)

    The parts of the view that decide without the UI: when the metrics
    opt-in prompt is shown, and how a data limit is displayed and read
    back. *)

Module ServerManagementApp.

(** What the methods of the selected server answer when they are called:
    [getServerId], [getMetricsEnabled] and [getCreatedDate] (in
    milliseconds).  [serverRef] is the identity of the object: the view
    compares servers with [!==]. *)
Record Server := {
  serverRef : nat;
  serverId : string;
  metricsEnabled : bool;
  createdDate : Z }.

(** The selected server, the local storage of the browser, and the server
    ids for which [showMetricsDialogForNewServer] was called. *)
Record App := {
  selectedServer : option nat;
  localStorage : gmap string string;
  metricsDialogs : list string }.

Definition promptedKey (id : string) : string := id +:+ "-prompted-for-metrics".

(** The closure [showMetricsOptInOnce] of [showMetricsOptInWhenNeeded]. *)
Definition showMetricsOptInOnce (selected : Server) (app : App) : App :=
  if negb (bool_decide (selectedServer app = Some (serverRef selected))) then app
  else
    let storageKey := promptedKey (serverId selected) in
    if negb (metricsEnabled selected) && negb (Js.truthy (localStorage app !! storageKey))
    then
      {| selectedServer := selectedServer app;
         localStorage := <[storageKey := "true"]> (localStorage app);
         metricsDialogs := metricsDialogs app ++ [serverId selected] |}
    else app.

Definition ONE_DAY_IN_MS : Z := 24 * 60 * 60 * 1000.

(** What [showMetricsOptInWhenNeeded] does with the closure: it calls it,
    or hands it to [setTimeout]. *)
Inductive Schedule :=
| CallNow
| SetTimeout (ms : Z).

Definition showMetricsOptInWhenNeeded (selected : Server) (now : Z) : Schedule :=
  let msSinceCreation := (now - createdDate selected)%Z in
  if (ONE_DAY_IN_MS <=? msSinceCreation)%Z then CallNow
  else SetTimeout (ONE_DAY_IN_MS - msSinceCreation).

(** The time at which the closure runs. *)
Definition runsAt (now : Z) (sch : Schedule) : Z :=
  match sch with
  | CallNow => now
  | SetTimeout ms => (now + ms)%Z
  end.

(** [showServer] selects a server; the closure runs for a server, now or
    from its timer. *)
Inductive Event :=
| ShowServer (selected : nat)
| OptInCheck (selected : Server).

Definition step (app : App) (e : Event) : App :=
  match e with
  | ShowServer r =>
      {| selectedServer := Some r; localStorage := localStorage app;
         metricsDialogs := metricsDialogs app |}
  | OptInCheck selected => showMetricsOptInOnce selected app
  end.

Definition run (app : App) (es : list Event) : App := foldl step app es.

(** *** Data limits

    A number of bytes is a JavaScript number; the model is the integers,
    which is what the code computes on whole numbers of bytes and of units
    below [2^53]: the products are exact there, and [Math.floor] of the
    quotient by [10^9] or [10^6] is the integer quotient. *)

Record DataLimit := { bytes : Z }.

Record DisplayDataAmount := { value : Z; unit : string }.

Definition MAX_SAFE : Z := 2 ^ 53.

Definition dataLimitToDisplayDataAmount (limit : option DataLimit)
  : option DisplayDataAmount :=
  match limit with
  | None => None
  | Some limit =>
      let bytes := bytes limit in
      if (10 ^ 9 <=? bytes)%Z then Some {| value := bytes / 10 ^ 9; unit := "GB" |}
      else Some {| value := bytes / 10 ^ 6; unit := "MB" |}
  end%Z.

Definition displayDataAmountToDataLimit (dataAmount : option DisplayDataAmount)
  : option DataLimit :=
  match dataAmount with
  | None => None
  | Some dataAmount =>
      if String.eqb (unit dataAmount) "GB" then Some {| bytes := value dataAmount * 10 ^ 9 |}
      else if String.eqb (unit dataAmount) "MB"
           then Some {| bytes := value dataAmount * 10 ^ 6 |}
      else Some {| bytes := value dataAmount |}
  end%Z.

End ServerManagementApp.

(** ** The access service of shadowbox (ShadowboxAccessService) *)

Module AccessService.

Record AccessServiceConfig := {
  certificateFilename : string;
  certificateSha256Fingerprint : string;
  privateKeyFilename : string;
  port : Z;
  prefix : string }.

(** [s.replace(/=/g, '')], for the character [=]. *)
Fixpoint removeChar (c : ascii) (s : string) : string :=
  match s with
  | EmptyString => EmptyString
  | String x r => if Ascii.eqb x c then removeChar c r else String x (removeChar c r)
  end.

(** The prefix that [generateConfig] derives from a UUID:
    [Buffer.from(uuid).toString('base64').replace(/=/g, '').slice(0, 16)]. *)
Definition generatePrefix (uuid : string) : string :=
  Js.sliceTo 16 (removeChar "=" (Js.btoa uuid)).

(** The service: the restify server it holds (servers are numbered in the
    order of their creation), its configuration, the calls of [start] that
    are suspended in [generateConfig], the number of servers created and the
    servers closed. *)
Record ShadowboxAccessService := {
  server : option nat;
  config : option AccessServiceConfig;
  suspended : nat;
  created : nat;
  closed : list nat }.

Definition new (config : option AccessServiceConfig) : ShadowboxAccessService :=
  {| server := None; config := config; suspended := 0; created := 0; closed := [] |}.

(** How far a call of [start] got: it threw, it is suspended in
    [generateConfig], or it created a server and waits for it to listen. *)
Inductive Started :=
| Rejected (e : Error)
| Suspended
| Listening (server : nat).

(** [start] from the creation of the server on; [files] is the outcome of
    reading the certificate and the key. *)
Definition createServer (files : Result unit) (s : ShadowboxAccessService)
  : Started * ShadowboxAccessService :=
  match files with
  | Throw e => (Rejected e, s)
  | Ok _ =>
      (Listening (created s),
       {| server := Some (created s); config := config s; suspended := suspended s;
          created := S (created s); closed := closed s |})
  end.

Definition start (files : Result unit) (s : ShadowboxAccessService)
  : Started * ShadowboxAccessService :=
  match server s with
  | Some _ => (Rejected (OtherError "access server already started"), s)
  | None =>
      match config s with
      | None =>
          (Suspended,
           {| server := server s; config := config s; suspended := S (suspended s);
              created := created s; closed := closed s |})
      | Some _ => createServer files s
      end
  end.

(** The continuation of [await this.generateConfig()] in a suspended call
    of [start]; with no call suspended there is nothing to continue.  The
    test of [this.server] is not made again. *)
Definition configGenerated (r : Result AccessServiceConfig) (files : Result unit)
  (s : ShadowboxAccessService) : Started * ShadowboxAccessService :=
  match suspended s with
  | O => (Suspended, s)
  | S n =>
      match r with
      | Throw e =>
          (Rejected e,
           {| server := server s; config := config s; suspended := n;
              created := created s; closed := closed s |})
      | Ok c =>
          createServer files
            {| server := server s; config := Some c; suspended := n;
               created := created s; closed := closed s |}
      end
  end.

Definition stop (s : ShadowboxAccessService) : Result unit * ShadowboxAccessService :=
  match server s with
  | None => (Throw (OtherError "access server not started"), s)
  | Some k =>
      (Ok (),
       {| server := None; config := None; suspended := suspended s;
          created := created s; closed := closed s ++ [k] |})
  end.

Inductive Event :=
| Start (files : Result unit)
| ConfigGenerated (r : Result AccessServiceConfig) (files : Result unit)
| Stop.

Definition step (s : ShadowboxAccessService) (e : Event) : ShadowboxAccessService :=
  match e with
  | Start files => (start files s).2
  | ConfigGenerated r files => (configGenerated r files s).2
  | Stop => (stop s).2
  end.

Definition run (s : ShadowboxAccessService) (es : list Event) : ShadowboxAccessService :=
  foldl step s es.

(** The server held is the last one created, with a configuration, and the
    servers closed were created. *)
Definition consistent (s : ShadowboxAccessService) : Prop :=
  (forall k, server s = Some k -> S k = created s /\ config s <> None)
  /\ (forall k, k ∈ closed s -> (k < created s)%nat)
  /\ (forall k, server s = Some k -> k ∉ closed s)
  /\ NoDup (closed s).

End AccessService.

(** ** More sample inputs *)

(** The answer of a finished installation. *)
Definition finishedAnswer : option Gcp.GuestAttributes :=
  answer [("apiUrl", "https://h/x"); ("certSha256", "Ma")].

(** A direct-poll server that waits for the attributes, with a listener. *)
Definition gcpListening : Gcp.GcpServer :=
  Gcp.step gcpFetching (Gcp.SetProgressListener 5).

(** A region id for the sample zone, "us-east1". *)
Definition sampleRegionId (zoneId : string) : string := Js.sliceTo 8 zoneId.

(** The events of a deletion that goes through. *)
Definition deletionEvents : list GcpHostDelete.Event :=
  [GcpHostDelete.Delete; GcpHostDelete.CompletionSettled (Ok ());
   GcpHostDelete.StaticIpDeleted (Ok ())].

(** The answer to the first refresh of [doRefreshing]: the installation is
    finished. *)
Definition finishedRefresh : list DigitalOcean.Event :=
  [DigitalOcean.DropletFetched (Ok (droplet "active" finishedTags)) 3000].

Definition sampleUuid : string := "123e4567-e89b-12d3-a456-426614174000".

Definition sampleConfig (prefix : string) : AccessService.AccessServiceConfig :=
  {| AccessService.certificateFilename := "/tmp/cert.pem";
     AccessService.certificateSha256Fingerprint := "TWE=";
     AccessService.privateKeyFilename := "/tmp/key.pem";
     AccessService.port := 8443;
     AccessService.prefix := prefix |}.

(** ** Facts about the direct-poll monitor *)

Section GcpFacts.
Import Gcp.

Lemma gcp_installState_setInstallState x s :
  installState (setInstallState x s) = x.
Proof. unfold setInstallState, notifyListener. simpl. by destruct (listener s). Qed.

Lemma gcp_call_setInstallState x s : call (setInstallState x s) = call s.
Proof. unfold setInstallState, notifyListener. simpl. by destruct (listener s). Qed.

Lemma gcp_trusted_setInstallState x s :
  trustedCertificates (setInstallState x s) = trustedCertificates s.
Proof. unfold setInstallState, notifyListener. simpl. by destruct (listener s). Qed.

Lemma gcp_url_setInstallState x s :
  managementApiUrl (setInstallState x s) = managementApiUrl s.
Proof. unfold setInstallState, notifyListener. simpl. by destruct (listener s). Qed.

Lemma gcp_gcpHost_setInstallState x s : gcpHost (setInstallState x s) = gcpHost s.
Proof. unfold setInstallState, notifyListener. simpl. by destruct (listener s). Qed.

Lemma gcp_moreCalls_setInstallState x s : moreCalls (setInstallState x s) = moreCalls s.
Proof. unfold setInstallState, notifyListener. simpl. by destruct (listener s). Qed.

Lemma gcp_has_true attrs k : has attrs k = true <-> is_Some (attrs !! k).
Proof. unfold has. apply bool_decide_eq_true. Qed.

Lemma gcp_has_false attrs k : has attrs k = false <-> attrs !! k = None.
Proof.
  unfold has. rewrite bool_decide_eq_false, <- eq_None_not_Some. done.
Qed.

(** The state that [pollBody] leaves. *)
Lemma gcp_installState_pollBody attrs s :
  installState (pollBody attrs s).1 =
    if has attrs "apiUrl" && has attrs "certSha256" then SUCCESS
    else if has attrs "install-error" then ERROR
    else if (0 <? size attrs)%nat && stateLt (installState s) BOOTED then BOOTED
    else installState s.
Proof.
  unfold pollBody.
  destruct (has attrs "apiUrl" && has attrs "certSha256") eqn:Hboth; simpl.
  - by rewrite gcp_installState_setInstallState.
  - destruct (has attrs "install-error"); simpl.
    + by rewrite gcp_installState_setInstallState.
    + destruct ((0 <? size attrs)%nat && stateLt (installState s) BOOTED); [|done].
      by rewrite gcp_installState_setInstallState.
Qed.

(** What [pollBody] throws. *)
Lemma gcp_thrown_pollBody attrs s :
  (pollBody attrs s).2 =
    if has attrs "apiUrl" && has attrs "certSha256" then None
    else if has attrs "install-error" then Some ServerInstallFailedError
    else None.
Proof.
  unfold pollBody.
  destruct (has attrs "apiUrl" && has attrs "certSha256"); simpl; [done|].
  by destruct (has attrs "install-error").
Qed.

(** The step on an answer of the API, in terms of [pollBody]. *)
Lemma gcp_step_fetched s ga :
  call s = AwaitAttributes ->
  step s (AttributesFetched (Ok ga)) =
    let r := pollBody (getOutlineGuestAttributes ga) s in
    match r.2 with
    | Some e => with_call (Thrown e) r.1
    | None => with_call AwaitSleep r.1
    end.
Proof. intros Hc. simpl. rewrite Hc. by destruct (pollBody _ s). Qed.

Lemma stateLt_spec a b : stateLt a b = true <-> (stateNumber a < stateNumber b)%Z.
Proof. unfold stateLt. apply Z.ltb_lt. Qed.

Lemma stateGe_spec a b : stateGe a b = true <-> (stateNumber b <= stateNumber a)%Z.
Proof. unfold stateGe. apply Z.leb_le. Qed.

Lemma stateGe_SUCCESS_terminal a : stateGe a SUCCESS = true <-> terminal a.
Proof.
  unfold terminal. destruct a; simpl; split; try done; try tauto;
    intros [?|[?|?]]; done.
Qed.

Lemma stateGe_SUCCESS_not_terminal a : stateGe a SUCCESS = false <-> ~ terminal a.
Proof.
  rewrite <- stateGe_SUCCESS_terminal. by destruct (stateGe a SUCCESS).
Qed.

Lemma gcp_not_both attrs :
  ~ (is_Some (attrs !! "apiUrl") /\ is_Some (attrs !! "certSha256")) ->
  has attrs "apiUrl" && has attrs "certSha256" = false.
Proof.
  intros Hn. apply andb_false_iff. rewrite !gcp_has_false.
  destruct (attrs !! "apiUrl"); [|by left].
  destruct (attrs !! "certSha256"); [|by right].
  exfalso. apply Hn. eauto.
Qed.

Lemma gcp_both attrs apiUrl certSha256 :
  attrs !! "apiUrl" = Some apiUrl -> attrs !! "certSha256" = Some certSha256 ->
  has attrs "apiUrl" && has attrs "certSha256" = true.
Proof.
  intros Ha Hb. apply andb_true_iff. rewrite !gcp_has_true, Ha, Hb. eauto.
Qed.

Lemma gcp_installState_fetched s ga :
  call s = AwaitAttributes ->
  installState (step s (AttributesFetched (Ok ga))) =
    installState (pollBody (getOutlineGuestAttributes ga) s).1.
Proof.
  intros Hc. rewrite gcp_step_fetched by done. simpl.
  by destruct (pollBody _ s).2.
Qed.

Lemma gcp_call_fetched s ga :
  call s = AwaitAttributes ->
  call (step s (AttributesFetched (Ok ga))) =
    match (pollBody (getOutlineGuestAttributes ga) s).2 with
    | Some e => Thrown e
    | None => AwaitSleep
    end.
Proof.
  intros Hc. rewrite gcp_step_fetched by done. simpl.
  by destruct (pollBody _ s).2.
Qed.

(** A non-empty snapshot seen below BOOTED: the body first sets BOOTED. *)
Lemma gcp_booted_first attrs s :
  (0 < size attrs)%nat -> (stateNumber (installState s) < stateNumber BOOTED)%Z ->
  pollBody attrs s = pollBody attrs (setInstallState BOOTED s).
Proof.
  intros Hn Hlt. unfold pollBody.
  rewrite gcp_installState_setInstallState.
  apply Nat.ltb_lt in Hn. apply stateLt_spec in Hlt. rewrite Hn, Hlt. done.
Qed.

(** Both keys: the fingerprint is trusted and the endpoint recorded. *)
Lemma gcp_success_effects attrs s apiUrl certSha256 :
  attrs !! "apiUrl" = Some apiUrl -> attrs !! "certSha256" = Some certSha256 ->
  trustedCertificates (pollBody attrs s).1 = (trustedCertificates s ++ [certSha256])%list
  /\ managementApiUrl (pollBody attrs s).1 = Some apiUrl.
Proof.
  intros Ha Hb. unfold pollBody. rewrite (gcp_both _ _ _ Ha Hb). simpl.
  rewrite gcp_trusted_setInstallState, gcp_url_setInstallState. simpl.
  rewrite Ha, Hb. simpl. split; [|done].
  case_match; rewrite ?gcp_trusted_setInstallState; done.
Qed.

(** C3: the transition rules of the direct-poll monitor.  When the
    instance-exists signal resolves, the state is set to CREATED and the
    first fetch starts.  Then, for the snapshot built from every answer of
    the API: a non-empty snapshot seen below BOOTED first sets BOOTED; a
    snapshot with both 'apiUrl' and 'certSha256' trusts the fingerprint,
    records the endpoint, sets SUCCESS, and the loop returns after its
    sleep; otherwise a snapshot with 'install-error' sets ERROR and the
    call throws ServerInstallFailedError; otherwise the call sleeps and,
    the state not being terminal, fetches again. *)
Theorem gcp_waitOnInstall_rules (s : GcpServer) (ga : option GuestAttributes) :
  let attrs := getOutlineGuestAttributes ga in
  let s' := step s (AttributesFetched (Ok ga)) in
  (call s = AwaitCompletion ->
     let c := step s (CompletionSettled (Ok ())) in
     installState c = CREATED /\ call c = AwaitAttributes)
  /\ (call s = AwaitAttributes ->
      ((0 < size attrs)%nat -> (stateNumber (installState s) < stateNumber BOOTED)%Z ->
         s' = step (setInstallState BOOTED s) (AttributesFetched (Ok ga))
         /\ (stateNumber BOOTED <= stateNumber (installState s'))%Z)
      /\ (forall apiUrl certSha256,
            attrs !! "apiUrl" = Some apiUrl -> attrs !! "certSha256" = Some certSha256 ->
            installState s' = SUCCESS
            /\ trustedCertificates s' = (trustedCertificates s ++ [certSha256])%list
            /\ managementApiUrl s' = Some apiUrl
            /\ call s' = AwaitSleep
            /\ call (step s' SleepDone) = Returned)
      /\ (~ (is_Some (attrs !! "apiUrl") /\ is_Some (attrs !! "certSha256")) ->
          is_Some (attrs !! "install-error") ->
          installState s' = ERROR
          /\ call s' = Thrown ServerInstallFailedError
          /\ polling s' = false)
      /\ (~ (is_Some (attrs !! "apiUrl") /\ is_Some (attrs !! "certSha256")) ->
          attrs !! "install-error" = None ->
          call s' = AwaitSleep
          /\ installState s' =
               (if (0 <? size attrs)%nat && stateLt (installState s) BOOTED
                then BOOTED else installState s)
          /\ (~ terminal (installState s') ->
              call (step s' SleepDone) = AwaitAttributes))).
Proof.
  intros attrs s'. split.
  { intros Hc. simpl. rewrite Hc. unfold loopTest.
    rewrite gcp_installState_setInstallState. simpl.
    by rewrite gcp_installState_setInstallState. }
  intros Hc.
  pose proof (gcp_installState_fetched s ga Hc) as Hst.
  pose proof (gcp_call_fetched s ga Hc) as Hcall.
  fold attrs s' in Hst, Hcall.
  rewrite gcp_installState_pollBody in Hst.
  rewrite gcp_thrown_pollBody in Hcall.
  split; [|split; [|split]].
  - intros Hn Hlt. split.
    + unfold s'. rewrite !gcp_step_fetched by (by rewrite ?gcp_call_setInstallState).
      fold attrs. by rewrite <- gcp_booted_first.
    + rewrite Hst. apply Nat.ltb_lt in Hn. apply stateLt_spec in Hlt.
      rewrite Hn, Hlt. repeat case_match; simpl; lia.
  - intros apiUrl certSha256 Ha Hb.
    rewrite (gcp_both _ _ _ Ha Hb) in Hst, Hcall.
    destruct (gcp_success_effects attrs s _ _ Ha Hb) as [Ht Hu].
    assert (Hs' : s' = with_call AwaitSleep (pollBody attrs s).1).
    { unfold s'. rewrite gcp_step_fetched by done. fold attrs. simpl.
      rewrite gcp_thrown_pollBody, (gcp_both _ _ _ Ha Hb). done. }
    repeat split; try done.
    + by rewrite Hs'.
    + by rewrite Hs'.
    + simpl. rewrite Hcall. unfold loopTest. by rewrite Hst.
  - intros Hn He. apply gcp_has_true in He.
    rewrite (gcp_not_both _ Hn), He in Hst, Hcall.
    unfold polling. by rewrite Hcall.
  - intros Hn He. apply gcp_has_false in He.
    rewrite (gcp_not_both _ Hn), He in Hst, Hcall.
    repeat split; try done.
    intros Hnt. simpl. rewrite Hcall. unfold loopTest.
    assert (stateLt (installState s') SUCCESS = true) as ->; [|done].
    apply stateGe_SUCCESS_not_terminal in Hnt. revert Hnt.
    unfold stateGe, stateLt. destruct (installState s'); done.
Qed.

Lemma gcp_waitOnInstall_rules_witness :
  (installState (step (step sampleGcp WaitOnInstall) (CompletionSettled (Ok ()))) = CREATED)
  /\ (installState
        (step gcpFetching
           (AttributesFetched
              (Ok (answer [("apiUrl", "https://203.0.113.7:8080/abc"); ("certSha256", "4d61")]))))
      = SUCCESS)
  /\ (call gcpFailed = Thrown ServerInstallFailedError)
  /\ (call (step gcpFetching (AttributesFetched (Ok (answer [])))) = AwaitSleep)
  /\ (stateNumber BOOTED <=
        stateNumber (installState
          (step gcpFetching (AttributesFetched (Ok (answer [("x", "y")]))))))%Z.
Proof.
  split; [|split; [|split; [|split]]].
  - apply (gcp_waitOnInstall_rules (step sampleGcp WaitOnInstall) None). reflexivity.
  - destruct (gcp_waitOnInstall_rules gcpFetching
      (answer [("apiUrl", "https://203.0.113.7:8080/abc"); ("certSha256", "4d61")]))
      as [_ H].
    destruct (H eq_refl) as (_ & Hs & _).
    apply (Hs "https://203.0.113.7:8080/abc" "4d61"); vm_compute; reflexivity.
  - destruct (gcp_waitOnInstall_rules gcpFetching (answer [("install-error", "disk full")]))
      as [_ H].
    destruct (H eq_refl) as (_ & _ & He & _).
    apply He.
    + vm_compute. intros [[? Hx] _]. discriminate Hx.
    + vm_compute. eauto.
  - destruct (gcp_waitOnInstall_rules gcpFetching (answer [])) as [_ H].
    destruct (H eq_refl) as (_ & _ & _ & Hn).
    apply Hn.
    + vm_compute. intros [[? Hx] _]. discriminate Hx.
    + vm_compute. reflexivity.
  - destruct (gcp_waitOnInstall_rules gcpFetching (answer [("x", "y")])) as [_ H].
    destruct (H eq_refl) as (Hb & _).
    apply Hb; vm_compute; reflexivity.
Defined.

(** C10: [isInstallCompleted] of the direct-poll variant is the comparison
    [installState >= SUCCESS], so it is true in ERROR and in DELETED as well
    as in SUCCESS, and in no other state; it is true after [onDelete], and
    after a snapshot that carries 'install-error' without both of 'apiUrl'
    and 'certSha256'. *)
Theorem gcp_isInstallCompleted_error_deleted (s : GcpServer) :
  (isInstallCompleted s = true <-> (stateNumber SUCCESS <= stateNumber (installState s))%Z)
  /\ (installState s = ERROR \/ installState s = DELETED -> isInstallCompleted s = true)
  /\ (stateNumber SUCCESS < stateNumber ERROR < stateNumber DELETED)%Z
  /\ isInstallCompleted (step s Deleted) = true
  /\ (forall ga,
        let attrs := getOutlineGuestAttributes ga in
        call s = AwaitAttributes ->
        ~ (is_Some (attrs !! "apiUrl") /\ is_Some (attrs !! "certSha256")) ->
        is_Some (attrs !! "install-error") ->
        isInstallCompleted (step s (AttributesFetched (Ok ga))) = true).
Proof.
  split; [|split; [|split; [|split]]].
  - unfold isInstallCompleted. apply stateGe_spec.
  - unfold isInstallCompleted. by intros [-> | ->].
  - simpl. lia.
  - reflexivity.
  - intros ga attrs Hc Hn He. unfold isInstallCompleted.
    rewrite gcp_installState_fetched, gcp_installState_pollBody by done.
    fold attrs. apply gcp_has_true in He. by rewrite (gcp_not_both _ Hn), He.
Qed.

Lemma gcp_isInstallCompleted_error_deleted_witness :
  isInstallCompleted gcpFailed = true
  /\ isInstallCompleted
       (step gcpFetching (AttributesFetched (Ok (answer [("install-error", "disk full")]))))
     = true.
Proof.
  split.
  - destruct (gcp_isInstallCompleted_error_deleted gcpFailed) as (_ & H & _).
    apply H. left. reflexivity.
  - destruct (gcp_isInstallCompleted_error_deleted gcpFetching) as (_ & _ & _ & _ & H).
    apply (H (answer [("install-error", "disk full")])).
    + reflexivity.
    + vm_compute. intros [[? Hx] _]. discriminate Hx.
    + vm_compute. eauto.
Defined.

(** *** Further calls of [waitOnInstall] *)

Lemma gcp_moreCalls_pollBody attrs s : moreCalls (pollBody attrs s).1 = moreCalls s.
Proof.
  unfold pollBody.
  repeat case_match; simpl; rewrite ?gcp_moreCalls_setInstallState; simpl;
    rewrite ?gcp_moreCalls_setInstallState; done.
Qed.

Lemma gcp_moreCalls_resume k s : moreCalls (resume k s) = moreCalls s.
Proof.
  destruct k as [r|r|]; simpl.
  - destruct (call s); try done. destruct r as [[]|e]; [|done].
    unfold loopTest. case_match; simpl; apply gcp_moreCalls_setInstallState.
  - destruct (call s); try done. destruct r as [ga|e]; [|done].
    pose proof (gcp_moreCalls_pollBody (getOutlineGuestAttributes ga) s) as H.
    destruct (pollBody _ s) as [s1 [e|]]; done.
  - destruct (call s); try done. unfold loopTest. by case_match.
Qed.


(** With no further call there is nothing to resume. *)
Lemma gcp_resumed_none s i k : moreCalls s = [] -> step s (Resumed i k) = s.
Proof. intros H. simpl. by rewrite H. Qed.

(** The calls made are never forgotten. *)
Lemma gcp_moreCalls_step s e :
  (length (moreCalls s) <= length (moreCalls (step s e)))%nat.
Proof.
  destruct e as [cb| |r|r| | | |i k].
  - simpl. unfold setProgressListener, notifyListener. simpl. lia.
  - simpl. destruct (call s); simpl; rewrite ?length_app; simpl; lia.
  - change (step s (CompletionSettled r)) with (resume (Completion r) s).
    by rewrite gcp_moreCalls_resume.
  - change (step s (AttributesFetched r)) with (resume (Attributes r) s).
    by rewrite gcp_moreCalls_resume.
  - change (step s SleepDone) with (resume Sleep s). by rewrite gcp_moreCalls_resume.
  - done.
  - done.
  - simpl. destruct (moreCalls s !! i); simpl; [|done]. by rewrite length_insert.
Qed.

Lemma gcp_single_step s e : moreCalls (step s e) = [] -> moreCalls s = [].
Proof.
  intros H. pose proof (gcp_moreCalls_step s e) as Hl. rewrite H in Hl.
  destruct (moreCalls s); [done|simpl in Hl; lia].
Qed.

(** *** A fetch that fails *)




(** *** Order of the states along a run *)

Lemma gcp_run_snoc s es e : run s (es ++ [e]) = step (run s es) e.
Proof. unfold run. by rewrite foldl_app. Qed.

Lemma gcp_installState_resume k s :
  installState (resume k s) =
    match k with
    | Completion (Ok _) =>
        match call s with AwaitCompletion => CREATED | _ => installState s end
    | Attributes (Ok ga) =>
        match call s with
        | AwaitAttributes => installState (pollBody (getOutlineGuestAttributes ga) s).1
        | _ => installState s
        end
    | _ => installState s
    end.
Proof.
  destruct k as [r|r|]; simpl.
  - destruct r as [[]|e]; destruct (call s) eqn:Hc; try done.
    unfold loopTest. case_match; simpl; by rewrite gcp_installState_setInstallState.
  - destruct r as [ga|e]; destruct (call s) eqn:Hc; try done.
    pose proof (gcp_installState_fetched s ga Hc) as H. simpl in H. by rewrite Hc in H.
  - destruct (call s); try done. unfold loopTest. by case_match.
Qed.

Lemma gcp_installState_step s e :
  installState (step s e) =
    match e with
    | CompletionSettled (Ok _) =>
        match call s with AwaitCompletion => CREATED | _ => installState s end
    | AttributesFetched (Ok ga) =>
        match call s with
        | AwaitAttributes => installState (pollBody (getOutlineGuestAttributes ga) s).1
        | _ => installState s
        end
    | Deleted => DELETED
    | Resumed i k =>
        match moreCalls s !! i with
        | Some c => installState (resume k (with_call c s))
        | None => installState s
        end
    | _ => installState s
    end.
Proof.
  destruct e as [cb| |r|r| | | |i k].
  - done.
  - simpl. by destruct (call s).
  - change (step s (CompletionSettled r)) with (resume (Completion r) s).
    rewrite gcp_installState_resume. by destruct r.
  - change (step s (AttributesFetched r)) with (resume (Attributes r) s).
    rewrite gcp_installState_resume. by destruct r.
  - change (step s SleepDone) with (resume Sleep s).
    by rewrite gcp_installState_resume.
  - done.
  - done.
  - simpl. by destruct (moreCalls s !! i).
Qed.

(** A further call whose instance-exists signal resolves sets CREATED
    again, whatever the state is. *)
Lemma gcp_later_call_created s i :
  moreCalls s !! i = Some AwaitCompletion ->
  installState (step s (Resumed i (Completion (Ok ())))) = CREATED.
Proof. intros H. rewrite gcp_installState_step, H. by rewrite gcp_installState_resume. Qed.

Lemma gcp_untouched_step s e :
  moreCalls s = [] -> untouched s -> untouched (step s e).
Proof.
  intros Hm. destruct e as [cb| |r|r| | | |i k];
    [| | | | | | |by rewrite gcp_resumed_none].
  all: unfold untouched; intros Hs Hc; try (by right).
  all: destruct (call s) eqn:E; simpl in Hc |- *; rewrite ?E in Hc |- *;
    simpl in Hc |- *; rewrite ?E in Hc;
    try (apply Hs; tauto); try (destruct Hc; discriminate).
  - exfalso. destruct r as [[]|e]; simpl in Hc; [|destruct Hc; discriminate].
    unfold loopTest in Hc. revert Hc. case_match; simpl; intros [?|?]; discriminate.
  - exfalso. destruct r as [ga|e]; simpl in Hc; [|destruct Hc; discriminate].
    destruct (pollBody _ s) as [s1 [e|]]; simpl in Hc; destruct Hc; discriminate.
  - exfalso. unfold loopTest in Hc. revert Hc.
    case_match; simpl; intros [?|?]; discriminate.
Qed.

Lemma gcp_untouched_run loc name client es :
  moreCalls (run (new loc name client) es) = [] ->
  untouched (run (new loc name client) es).
Proof.
  induction es as [|e es IH] using rev_ind.
  - intros _ _. by left.
  - rewrite gcp_run_snoc. intros Hm.
    pose proof (gcp_single_step _ _ Hm) as Hm'.
    apply gcp_untouched_step; [done|by apply IH].
Qed.

(** Before the state is terminal, a step does not lower it, as long as
    [waitOnInstall] was called once at most. *)
Lemma gcp_step_order s e :
  moreCalls s = [] ->
  untouched s ->
  stateGe (installState s) SUCCESS = false ->
  (stateNumber (installState s) <= stateNumber (installState (step s e)))%Z.
Proof.
  intros Hm Hf Hge. rewrite gcp_installState_step.
  destruct e as [cb| |r|r| | | |i k]; try lia.
  - destruct r as [[]|e]; [|lia]. destruct (call s) eqn:Hc; try lia.
    destruct Hf as [-> | Hd]; [by right|simpl; lia|].
    rewrite Hd in Hge. done.
  - destruct r as [ga|e]; [|lia]. destruct (call s) eqn:Hc; try lia.
    rewrite gcp_installState_pollBody.
    revert Hge. unfold stateGe, stateLt.
    repeat case_match; destruct (installState s); simpl in *; intros; try lia; done.
  - revert Hge. unfold stateGe. destruct (installState s); simpl; intros; lia.
  - rewrite Hm. simpl. lia.
Qed.

(** No event replaces the host object of the server. *)
Lemma gcp_gcpHost_pollBody attrs s : gcpHost (pollBody attrs s).1 = gcpHost s.
Proof.
  unfold pollBody.
  repeat case_match; simpl; rewrite ?gcp_gcpHost_setInstallState; simpl;
    rewrite ?gcp_gcpHost_setInstallState; done.
Qed.

Lemma gcp_gcpHost_resume k s : gcpHost (resume k s) = gcpHost s.
Proof.
  destruct k as [r|r|]; simpl.
  - destruct (call s); try done. destruct r as [[]|e]; [|done].
    unfold loopTest. case_match; simpl; apply gcp_gcpHost_setInstallState.
  - destruct (call s); try done. destruct r as [ga|e]; [|done].
    pose proof (gcp_gcpHost_pollBody (getOutlineGuestAttributes ga) s) as H.
    destruct (pollBody _ s) as [s1 [e|]]; done.
  - destruct (call s); try done. unfold loopTest. by case_match.
Qed.

Lemma gcp_gcpHost_step s e : gcpHost (step s e) = gcpHost s.
Proof.
  destruct e as [cb| |r|r| | | |i k]; try apply gcp_gcpHost_resume; try done.
  - simpl. by destruct (call s).
  - simpl. destruct (moreCalls s !! i) as [c|]; [|done]. simpl.
    apply (gcp_gcpHost_resume k (with_call c s)).
Qed.

Lemma gcp_gcpHost_run es : forall s, gcpHost (run s es) = gcpHost s.
Proof.
  induction es as [|e es IH]; intros s; [done|].
  simpl. by rewrite IH, gcp_gcpHost_step.
Qed.

End GcpFacts.

(** ** Facts about JavaScript strings *)

Section JsFacts.
Import Js.

Lemma string_app_assoc (a b c : string) : (a +:+ b) +:+ c = a +:+ (b +:+ c).
Proof.
  induction a as [|x a IH]; [done|].
  change (String x ((a +:+ b) +:+ c) = String x (a +:+ (b +:+ c))). by rewrite IH.
Qed.

Lemma string_length_app (a b : string) :
  String.length (a +:+ b) = (String.length a + String.length b)%nat.
Proof.
  induction a as [|x a IH]; [done|].
  change (S (String.length (a +:+ b)) = S (String.length a + String.length b)).
  by rewrite IH.
Qed.

Lemma sliceFrom_app (a b : string) : sliceFrom (String.length a) (a +:+ b) = b.
Proof.
  induction a as [|x a IH]; [by destruct b|].
  change (sliceFrom (String.length a) (a +:+ b) = b). done.
Qed.

(** A text to which "/" is appended ends with "/". *)
Lemma endsWith_app_slash (a : string) : endsWith (a +:+ "/") "/" = true.
Proof.
  unfold endsWith. rewrite string_length_app.
  change (String.length "/") with 1%nat.
  replace (String.length a + 1 - 1)%nat with (String.length a) by lia.
  rewrite sliceFrom_app.
  replace (1 <=? String.length a + 1)%nat with true; [done|].
  symmetry. apply Nat.leb_le. lia.
Qed.

Lemma truthy_present (tagMap : gmap string string) k :
  truthy (tagMap !! k) = true <-> DigitalOcean.present tagMap k.
Proof.
  unfold truthy, DigitalOcean.present. destruct (tagMap !! k) as [v|].
  - destruct (String.eqb_spec v "") as [Hv|Hv]; simpl; split; try done.
    + intros (v' & Heq & Hv'). congruence.
    + intros _. by exists v.
  - split; [done|]. by intros (v & Hv & _).
Qed.

Lemma truthy_Some_nonempty (v : string) : v <> "" -> truthy (Some v) = true.
Proof. intros Hv. simpl. by destruct (String.eqb_spec v ""). Qed.

End JsFacts.

(** ** Facts about the cached-refresh monitor *)

Section DigitalOceanFacts.
Import DigitalOcean.
Context {hex : HexEncoding}.

(** The address that [managementApiAddress] returns ends with "/". *)
Lemma do_managementApiAddress_slash tagMap ip url :
  managementApiAddress tagMap ip = Ok url -> Js.endsWith url "/" = true.
Proof.
  unfold managementApiAddress.
  match goal with |- context [mbind _ ?m] => destruct m as [a|e] end; simpl; [|done].
  destruct (Js.endsWith a "/") eqn:Ha; simpl; intros [= <-]; [done|].
  apply endsWith_app_slash.
Qed.

(** C8: the endpoint synthesized from the legacy tags.  When no 'apiurl'
    tag is present (none, or one with an empty value), the 'apiport' tag has
    the value [port], not empty, and the first public IPv4 network has the
    address [address], not empty: without an 'apiprefix' tag the endpoint is
    https://address:port/, with the 'apiprefix' value "v1" it is
    https://address:port/v1/, and with any 'apiprefix' value that is not
    empty it is https://address:port/ followed by the value and "/".  Every endpoint that [getManagementApiAddress]
    returns ends with "/": an 'apiurl' value is returned as it is when it
    ends with "/", and with "/" appended otherwise. *)
Theorem do_legacy_endpoint (d : DropletInfo) (address port : string) :
  let tagMap := getTagMap d in
  ~ present tagMap API_URL_TAG ->
  tagMap !! DEPRECATED_API_PORT_TAG = Some port -> port <> "" ->
  ipv4Address d = Some address -> address <> "" ->
  (~ present tagMap DEPRECATED_API_PREFIX_TAG ->
     getManagementApiAddress d = Ok ("https://" +:+ address +:+ ":" +:+ port +:+ "/"))
  /\ (tagMap !! DEPRECATED_API_PREFIX_TAG = Some "v1" ->
     getManagementApiAddress d = Ok ("https://" +:+ address +:+ ":" +:+ port +:+ "/v1/"))
  /\ (forall prefix, tagMap !! DEPRECATED_API_PREFIX_TAG = Some prefix -> prefix <> "" ->
     getManagementApiAddress d =
       Ok ("https://" +:+ address +:+ ":" +:+ port +:+ "/" +:+ prefix +:+ "/"))
  /\ (forall d' url, getManagementApiAddress d' = Ok url -> Js.endsWith url "/" = true)
  /\ (forall d' apiUrl, getTagMap d' !! API_URL_TAG = Some apiUrl -> apiUrl <> "" ->
        getManagementApiAddress d' =
          Ok (if Js.endsWith apiUrl "/" then apiUrl else apiUrl +:+ "/")).
Proof.
  intros tagMap Hurl Hport Hp Hip Ha.
  assert (Hu : Js.truthy (tagMap !! API_URL_TAG) = false).
  { destruct (Js.truthy (tagMap !! API_URL_TAG)) eqn:E; [|done].
    by apply truthy_present in E. }
  assert (Hgen : forall prefix,
             tagMap !! DEPRECATED_API_PREFIX_TAG = Some prefix -> prefix <> "" ->
             getManagementApiAddress d =
               Ok ("https://" +:+ address +:+ ":" +:+ port +:+ "/" +:+ prefix +:+ "/")).
  { intros prefix Hprefix Hne.
    unfold getManagementApiAddress, managementApiAddress. fold tagMap.
    rewrite Hu, Hport, Hip, Hprefix, !truthy_Some_nonempty by done. simpl.
    replace (("https://" +:+ address +:+ ":" +:+ port +:+ "/") +:+ prefix +:+ "/")
      with (("https://" +:+ address +:+ ":" +:+ port +:+ "/" +:+ prefix) +:+ "/")
      by (by rewrite !string_app_assoc).
    rewrite endsWith_app_slash. simpl. by rewrite !string_app_assoc. }
  split; [|split; [|split; [done|split]]].
  - intros Hprefix.
    assert (Hx : Js.truthy (tagMap !! DEPRECATED_API_PREFIX_TAG) = false).
    { destruct (Js.truthy (tagMap !! DEPRECATED_API_PREFIX_TAG)) eqn:E; [|done].
      by apply truthy_present in E. }
    unfold getManagementApiAddress, managementApiAddress. fold tagMap.
    rewrite Hu, Hport, Hip, Hx, !truthy_Some_nonempty by done. simpl.
    replace ("https://" +:+ address +:+ ":" +:+ port +:+ "/")
      with (("https://" +:+ address +:+ ":" +:+ port) +:+ "/")
      by (by rewrite !string_app_assoc).
    by rewrite endsWith_app_slash.
  - intros Hprefix. by rewrite (Hgen "v1").
  - intros d' url. apply do_managementApiAddress_slash.
  - intros d' apiUrl Hsome Hne.
    unfold getManagementApiAddress, managementApiAddress.
    rewrite Hsome, truthy_Some_nonempty by done. simpl.
    by destruct (Js.endsWith apiUrl "/").
Qed.

(** *** What the setters keep *)

Lemma do_installState_setInstallState x s :
  installState (setInstallState x s) =
    if stateGe (installState s) SUCCESS then installState s else x.
Proof.
  unfold setInstallState, notifyListener, setInstallCompleted.
  repeat case_match; done.
Qed.

Lemma do_setInstallState_frame x s :
  let s' := setInstallState x s in
  startTimestamp s' = startTimestamp s
  /\ refreshInterval s' = refreshInterval s
  /\ refreshing s' = refreshing s
  /\ installPromise s' = installPromise s
  /\ dropletInfo s' = dropletInfo s
  /\ digitalOcean s' = digitalOcean s
  /\ allocated s' = allocated s
  /\ managementApiUrl s' = managementApiUrl s
  /\ trustedCertificates s' = trustedCertificates s.
Proof.
  unfold setInstallState, notifyListener, setInstallCompleted.
  repeat case_match; done.
Qed.

Lemma do_setApiUrlAndCertificate_frame s :
  let s' := (setApiUrlAndCertificate s).2 in
  installState s' = installState s
  /\ startTimestamp s' = startTimestamp s
  /\ refreshInterval s' = refreshInterval s
  /\ refreshing s' = refreshing s
  /\ installPromise s' = installPromise s
  /\ dropletInfo s' = dropletInfo s
  /\ digitalOcean s' = digitalOcean s
  /\ allocated s' = allocated s.
Proof.
  unfold setApiUrlAndCertificate. repeat case_match; done.
Qed.

(** [setApiUrlAndCertificate] succeeds exactly when both values can be
    read, and then it trusts the fingerprint and records the endpoint. *)
Lemma do_setApiUrlAndCertificate_true s :
  (setApiUrlAndCertificate s).1 = true <-> resolvable (dropletInfo s).
Proof.
  unfold setApiUrlAndCertificate, resolvable.
  destruct (getCertificateFingerprint (dropletInfo s)) as [fp|e]; simpl.
  - destruct (getManagementApiAddress (dropletInfo s)) as [addr|e]; simpl.
    + split; [|done]. intros _. by exists fp, addr.
    + split; [done|]. by intros (? & ? & _ & ?).
  - split; [done|]. by intros (? & ? & ? & _).
Qed.

Lemma do_setApiUrlAndCertificate_effects s fingerprint apiAddress :
  getCertificateFingerprint (dropletInfo s) = Ok fingerprint ->
  getManagementApiAddress (dropletInfo s) = Ok apiAddress ->
  setApiUrlAndCertificate s =
    (true, setManagementApiUrl apiAddress (trustCertificate fingerprint s)).
Proof. intros Hf Ha. unfold setApiUrlAndCertificate. by rewrite Hf, Ha. Qed.

(** The state that [updateInstallState] leaves. *)
Lemma do_installState_updateInstallState now s :
  installState (updateInstallState now s) =
    if stateGe (installState s) SUCCESS then installState s
    else if Js.truthy (getTagMap (dropletInfo s) !! INSTALL_ERROR_TAG) then ERROR
    else if (TIMEOUT_MS <=? now - startTimestamp s)%Z then ERROR
    else if (setApiUrlAndCertificate s).1 then SUCCESS
    else if (0 <? size (getTagMap (dropletInfo s)))%nat then BOOTED
    else if String.eqb (status (dropletInfo s)) "active" then CREATED
    else installState s.
Proof.
  unfold updateInstallState.
  destruct (stateGe (installState s) SUCCESS) eqn:Hge; [done|].
  destruct (Js.truthy _).
  { by rewrite do_installState_setInstallState, Hge. }
  destruct (TIMEOUT_MS <=? now - startTimestamp s)%Z.
  { by rewrite do_installState_setInstallState, Hge. }
  pose proof (do_setApiUrlAndCertificate_frame s) as (Hst & _).
  destruct (setApiUrlAndCertificate s) as [ok s1]. simpl in *.
  destruct ok.
  { by rewrite do_installState_setInstallState, Hst, Hge. }
  destruct (0 <? size _)%nat.
  { by rewrite do_installState_setInstallState, Hge. }
  destruct (String.eqb _ _); [|done].
  by rewrite do_installState_setInstallState, Hge.
Qed.

Lemma do_updateInstallState_frame now s :
  let s' := updateInstallState now s in
  startTimestamp s' = startTimestamp s
  /\ refreshInterval s' = refreshInterval s
  /\ refreshing s' = refreshing s
  /\ installPromise s' = installPromise s
  /\ dropletInfo s' = dropletInfo s
  /\ digitalOcean s' = digitalOcean s
  /\ allocated s' = allocated s.
Proof.
  unfold updateInstallState.
  pose proof (do_setApiUrlAndCertificate_frame s) as (_ & F1 & F2 & F3 & F4 & F5 & F6 & F7).
  destruct (setApiUrlAndCertificate s) as [ok s1]. simpl in *.
  repeat case_match;
    repeat match goal with
    | |- context [setInstallState ?x ?t] =>
        let F := fresh in
        pose proof (do_setInstallState_frame x t) as F; simpl in F;
        destruct F as (-> & -> & -> & -> & -> & -> & -> & _)
    end; done.
Qed.

(** C4, amended: the priority order of [updateInstallState].  In a state
    that is not terminal, with [tagMap] the map read from the cached tags:
    an 'install-error' tag whose value is not empty sets ERROR; else 5
    minutes or more since [startTimestamp] set ERROR; else a fingerprint
    and an endpoint that can both be read are trusted and recorded, and the
    state is SUCCESS; else a tag map that is not empty sets BOOTED; else
    the status "active" sets CREATED; else the server is left as it is.
    An 'install-error' tag with an empty value is passed over: the code
    tests the value, not the key.  The tag map is not empty when the
    object has an own key; a tag with the key '__proto__' gives none. *)
Theorem do_updateInstallState_priority (now : Z) (s : DigitalOceanServer) :
  let d := dropletInfo s in
  let tagMap := getTagMap d in
  let s' := updateInstallState now s in
  ~ terminal (installState s) ->
  (present tagMap INSTALL_ERROR_TAG -> installState s' = ERROR)
  /\ (~ present tagMap INSTALL_ERROR_TAG ->
      ((TIMEOUT_MS <= now - startTimestamp s)%Z -> installState s' = ERROR)
      /\ ((now - startTimestamp s < TIMEOUT_MS)%Z ->
          (forall fingerprint apiAddress,
              getCertificateFingerprint d = Ok fingerprint ->
              getManagementApiAddress d = Ok apiAddress ->
              installState s' = SUCCESS
              /\ trustedCertificates s' = (trustedCertificates s ++ [fingerprint])%list
              /\ managementApiUrl s' = Some apiAddress)
          /\ (~ resolvable d ->
              ((0 < size tagMap)%nat -> installState s' = BOOTED)
              /\ (size tagMap = 0%nat ->
                  (status d = "active" -> installState s' = CREATED)
                  /\ (status d <> "active" -> s' = s))))).
Proof.
  intros d tagMap s' Hge. apply stateGe_SUCCESS_not_terminal in Hge.
  pose proof (do_installState_updateInstallState now s) as Hst.
  fold s' d tagMap in Hst. rewrite Hge in Hst.
  split.
  { intros He. apply truthy_present in He. by rewrite He in Hst. }
  intros He.
  assert (He' : Js.truthy (tagMap !! INSTALL_ERROR_TAG) = false).
  { destruct (Js.truthy _) eqn:E; [|done]. by apply truthy_present in E. }
  rewrite He' in Hst. split.
  { intros Ht. apply Z.leb_le in Ht. by rewrite Ht in Hst. }
  intros Ht. apply Z.ltb_lt in Ht. rewrite Z.ltb_antisym in Ht.
  apply negb_true_iff in Ht. rewrite Ht in Hst. split.
  - intros fingerprint apiAddress Hf Ha.
    pose proof (do_setApiUrlAndCertificate_effects s _ _ Hf Ha) as Hset.
    rewrite Hset in Hst. split; [done|].
    unfold s', updateInstallState. fold d tagMap. rewrite Hge, He', Ht, Hset.
    pose proof (do_setInstallState_frame SUCCESS
      (setManagementApiUrl apiAddress (trustCertificate fingerprint s)))
      as (_ & _ & _ & _ & _ & _ & _ & Hu & Hc).
    simpl in Hu, Hc. by rewrite Hu, Hc.
  - intros Hr.
    assert (Hset : (setApiUrlAndCertificate s).1 = false).
    { destruct (setApiUrlAndCertificate s).1 eqn:E; [|done].
      by apply do_setApiUrlAndCertificate_true in E. }
    rewrite Hset in Hst. split.
    + intros Hn. apply Nat.ltb_lt in Hn. by rewrite Hn in Hst.
    + intros Hz. rewrite Hz in Hst. simpl in Hst. split.
      * intros Hact. fold d in Hst. by rewrite Hact in Hst.
      * intros Hact. unfold s', updateInstallState. fold d tagMap.
        rewrite Hge, He', Ht, Hz.
        destruct (setApiUrlAndCertificate s) as [ok s1]. simpl in Hset. subst ok.
        simpl. by destruct (String.eqb_spec (status d) "active").
Qed.

(** *** Steps *)

Lemma do_refreshed_frame r now s :
  let s' := refreshed r now s in
  startTimestamp s' = startTimestamp s
  /\ refreshing s' = refreshing s
  /\ installPromise s' = installPromise s
  /\ digitalOcean s' = digitalOcean s
  /\ allocated s' = allocated s.
Proof.
  unfold refreshed. destruct r as [d|e].
  - pose proof (do_updateInstallState_frame now (with_dropletInfo d s))
      as (F1 & _ & F3 & F4 & _ & F6 & F7).
    simpl in *. by case_match.
  - pose proof (do_setInstallState_frame ERROR s) as (F1 & _ & F3 & F4 & _ & F6 & F7 & _).
    simpl in *. done.
Qed.

Lemma do_installState_refreshed r now s :
  installState (refreshed r now s) =
    match r with
    | Ok d => installState (updateInstallState now (with_dropletInfo d s))
    | Throw _ => if stateGe (installState s) SUCCESS then installState s else ERROR
    end.
Proof.
  unfold refreshed. destruct r as [d|e].
  - by case_match.
  - simpl. apply do_installState_setInstallState.
Qed.

(** No event changes [startTimestamp] or the session. *)
Lemma do_step_startTimestamp s e :
  startTimestamp (step s e) = startTimestamp s /\ digitalOcean (step s e) = digitalOcean s.
Proof.
  destruct e as [cb| | | |r now| |]; simpl;
    try (unfold checkInstallState; repeat case_match; done).
  - destruct (refreshing s) as [|n]; [done|].
    pose proof (do_refreshed_frame r now (with_refreshing n s)) as (F1 & _ & _ & F4 & _).
    done.
  - pose proof (do_setInstallState_frame DELETED s) as (F1 & _ & _ & _ & _ & F6 & _). done.
Qed.

(** Only the two events of [waitOnInstall] touch its promise. *)
Lemma do_step_installPromise s e :
  e <> WaitOnInstall -> e <> CheckInterval ->
  installPromise (step s e) = installPromise s.
Proof.
  intros H1 H2. destruct e as [cb| | | |r now| |]; simpl; try done;
    try (repeat case_match; done).
  - destruct (refreshing s) as [|n]; [done|].
    pose proof (do_refreshed_frame r now (with_refreshing n s)) as (_ & _ & F3 & _).
    done.
  - pose proof (do_setInstallState_frame DELETED s) as (_ & _ & _ & F4 & _). done.
Qed.

(** The state after a step. *)
Lemma do_installState_step s e :
  installState (step s e) =
    match e with
    | DropletFetched r now =>
        match refreshing s with
        | O => installState s
        | S n => installState (refreshed r now (with_refreshing n s))
        end
    | Deleted => if stateGe (installState s) SUCCESS then installState s else DELETED
    | _ => installState s
    end.
Proof.
  destruct e as [cb| | | |r now| |]; simpl; try done;
    try (unfold checkInstallState; repeat case_match; done).
  apply do_installState_setInstallState.
Qed.

(** A terminal state is never changed. *)
Lemma do_step_final s e :
  stateGe (installState s) SUCCESS = true ->
  installState (step s e) = installState s.
Proof.
  intros Hge. rewrite do_installState_step.
  destruct e as [cb| | | |r now| |]; try done.
  - destruct (refreshing s) as [|n]; [done|].
    rewrite do_installState_refreshed. destruct r as [d|e].
    + rewrite do_installState_updateInstallState. simpl. by rewrite Hge.
    + simpl. by rewrite Hge.
  - by rewrite Hge.
Qed.

Lemma do_run_final es : forall s,
  stateGe (installState s) SUCCESS = true ->
  installState (run s es) = installState s.
Proof.
  induction es as [|e es IH]; intros s Hge; [done|].
  simpl. rewrite IH; rewrite do_step_final; done.
Qed.

(** Before the state is terminal, a step does not lower it, except from BOOTED
    to CREATED. *)
Lemma do_step_order s e :
  stateGe (installState s) SUCCESS = false ->
  (stateNumber (installState s) <= stateNumber (installState (step s e)))%Z
  \/ (installState s = BOOTED /\ installState (step s e) = CREATED).
Proof.
  intros Hge. rewrite do_installState_step.
  destruct e as [cb| | | |r now| |]; try (left; lia).
  - destruct (refreshing s) as [|n]; [left; lia|].
    rewrite do_installState_refreshed. destruct r as [d|e].
    + rewrite do_installState_updateInstallState. simpl. rewrite Hge.
      revert Hge. unfold stateGe.
      repeat case_match; destruct (installState s); simpl; intros; try lia; try done;
        try (left; lia); by right.
    + simpl. rewrite Hge. left. revert Hge. unfold stateGe.
      destruct (installState s); simpl; intros; try lia; done.
  - rewrite Hge. left. destruct (installState s); simpl; lia.
Qed.

(** *** The timers and the promise of [waitOnInstall] *)

Lemma do_step_refreshInterval s e :
  refreshInterval s = false -> refreshInterval (step s e) = false.
Proof.
  intros Hr. destruct e as [cb| | | |r now| |]; simpl; try done;
    try (unfold checkInstallState; repeat case_match; done).
  - destruct (refreshing s) as [|n]; [done|].
    unfold refreshed. destruct r as [d|e]; [|done].
    pose proof (do_updateInstallState_frame now (with_dropletInfo d (with_refreshing n s)))
      as (_ & F2 & _).
    simpl in F2. case_match; [done|]. by rewrite F2.
  - pose proof (do_setInstallState_frame DELETED s) as (_ & F2 & _). simpl in F2.
    unfold onDelete. by rewrite F2.
Qed.

(** Once the 3 s interval is cleared, no refresh is started. *)
Lemma do_step_refreshing s e :
  refreshInterval s = false -> (refreshing (step s e) <= refreshing s)%nat.
Proof.
  intros Hr. destruct e as [cb| | | |r now| |]; simpl; try done;
    try (unfold checkInstallState; repeat case_match; done).
  - destruct (refreshing s) as [|n] eqn:Hn; [by rewrite Hn|].
    pose proof (do_refreshed_frame r now (with_refreshing n s)) as (_ & F2 & _).
    simpl in F2. rewrite F2. lia.
  - pose proof (do_setInstallState_frame DELETED s) as (_ & _ & F3 & _). simpl in F3.
    unfold onDelete. by rewrite F3.
Qed.

Lemma do_run_stopped es : forall s,
  refreshInterval s = false ->
  refreshInterval (run s es) = false /\ (refreshing (run s es) <= refreshing s)%nat.
Proof.
  induction es as [|e es IH]; intros s Hr; [done|].
  simpl. destruct (IH (step s e)) as [H1 H2]; [by apply do_step_refreshInterval|].
  split; [done|]. pose proof (do_step_refreshing s e Hr). lia.
Qed.

(** What the check of [waitOnInstall] does in each terminal state. *)
Lemma do_check_final s :
  installPromise s = Polling ->
  (installState s = SUCCESS -> installPromise (checkInstallState s) = Settled (Ok ()))
  /\ (installState s = ERROR ->
      installPromise (checkInstallState s) = Settled (Throw ServerInstallFailedError))
  /\ (installState s = DELETED ->
      installPromise (checkInstallState s) = Settled (Throw DeletedServerError)).
Proof.
  intros Hp. unfold checkInstallState. rewrite Hp.
  repeat split; intros Hs; rewrite Hs; done.
Qed.

(** In a terminal state, a promise that is pending or settled with [r], where
    [r] is what the check settles it with, stays so, and the next check
    settles it. *)
Lemma do_settles r es : forall s,
  stateGe (installState s) SUCCESS = true ->
  (forall t, installState t = installState s -> installPromise t = Polling ->
             installPromise (checkInstallState t) = Settled r) ->
  installPromise s = Polling \/ installPromise s = Settled r ->
  (installPromise (run s es) = Polling \/ installPromise (run s es) = Settled r)
  /\ installPromise (step (run s es) CheckInterval) = Settled r.
Proof.
  induction es as [|e es IH]; intros s Hge Hr Hp.
  - split; [done|]. simpl. destruct Hp as [Hp|Hp]; [by apply Hr|].
    unfold checkInstallState. by rewrite Hp.
  - simpl. apply IH.
    + by rewrite do_step_final.
    + intros t Ht. apply Hr. by rewrite Ht, do_step_final.
    + destruct e as [cb| | | |r' now| |];
        try (by rewrite do_step_installPromise).
      * simpl. destruct Hp as [Hp|Hp]; rewrite Hp; [by left|by right].
      * simpl. destruct Hp as [Hp|Hp]; [right; by apply Hr|].
        right. unfold checkInstallState. by rewrite Hp.
Qed.

(** C7: a refresh that fails while the state is not terminal.  The state
    becomes ERROR at once and the 3 s interval is cleared: its callback
    would do nothing, and in every continuation the state stays ERROR, the
    interval stays cleared and no refresh is started.  A pending
    [waitOnInstall] is rejected with ServerInstallFailedError by its next
    check, which clears the 100 ms interval. *)
Theorem do_refresh_failure (s : DigitalOceanServer) (n : nat) (e : Error) (now : Z) :
  ~ terminal (installState s) ->
  refreshing s = S n ->
  let s1 := step s (DropletFetched (Throw e) now) in
  installState s1 = ERROR
  /\ refreshInterval s1 = false
  /\ step s1 RefreshInterval = s1
  /\ (forall es,
        let s2 := run s1 es in
        installState s2 = ERROR
        /\ refreshInterval s2 = false
        /\ (refreshing s2 <= n)%nat
        /\ (installPromise s = Polling ->
            installPromise (step s2 CheckInterval)
              = Settled (Throw ServerInstallFailedError))).
Proof.
  intros Hge Hn s1. apply stateGe_SUCCESS_not_terminal in Hge.
  assert (Hst : installState s1 = ERROR).
  { unfold s1. rewrite do_installState_step, Hn, do_installState_refreshed. simpl.
    by rewrite Hge. }
  assert (Hri : refreshInterval s1 = false) by (unfold s1; simpl; by rewrite Hn).
  assert (Hrn : refreshing s1 = n).
  { unfold s1. simpl. rewrite Hn.
    pose proof (do_refreshed_frame (Throw e) now (with_refreshing n s)) as (_ & F & _).
    done. }
  assert (Hpr : installPromise s1 = installPromise s)
    by (unfold s1; by rewrite do_step_installPromise).
  split; [done|]. split; [done|]. split; [simpl; by rewrite Hri|].
  intros es s2.
  destruct (do_run_stopped es s1 Hri) as [H1 H2].
  split; [|split; [done|split; [fold s2 in H2; lia|]]].
  - unfold s2. rewrite do_run_final; [done|]. by rewrite Hst.
  - intros Hp.
    apply (do_settles (Throw ServerInstallFailedError) es s1).
    + by rewrite Hst.
    + intros t Ht Hpt. rewrite Hst in Ht. by apply do_check_final.
    + left. by rewrite Hpr.
Qed.

(** *** A server that is left alone *)

Lemma do_calm_step s e :
  stateGe (installState s) SUCCESS = false ->
  calm (startTimestamp s) e ->
  stateGe (installState (step s e)) SUCCESS = false
  /\ (installPromise s = NotCalled \/ installPromise s = Polling ->
      installPromise (step s e) = NotCalled \/ installPromise (step s e) = Polling).
Proof.
  intros Hge Hcalm. split.
  - rewrite do_installState_step.
    destruct e as [cb| | | |r now| |]; try done.
    destruct (refreshing s) as [|n]; [done|]. destruct r as [d|e]; [|done].
    destruct Hcalm as [[Hq1 Hq2] Ht].
    rewrite do_installState_refreshed, do_installState_updateInstallState. simpl.
    rewrite Hge.
    assert (Js.truthy (getTagMap d !! INSTALL_ERROR_TAG) = false) as ->.
    { destruct (Js.truthy _) eqn:E; [|done]. by apply truthy_present in E. }
    assert ((TIMEOUT_MS <=? now - startTimestamp s)%Z = false) as ->.
    { apply Z.leb_gt. lia. }
    assert ((setApiUrlAndCertificate (with_dropletInfo d (with_refreshing n s))).1
            = false) as ->.
    { destruct (setApiUrlAndCertificate _).1 eqn:E; [|done].
      by apply do_setApiUrlAndCertificate_true in E. }
    by repeat case_match.
  - intros Hp. destruct e as [cb| | | |r now| |];
      try (by rewrite do_step_installPromise).
    + simpl. destruct Hp as [Hp|Hp]; rewrite Hp; by right.
    + simpl. unfold checkInstallState. destruct Hp as [Hp|Hp]; rewrite Hp; [by left|].
      assert (stateLt (installState s) SUCCESS = true) as ->; [|by right].
      revert Hge. unfold stateGe, stateLt. destruct (installState s); simpl; done.
Qed.

Lemma do_calm_run es : forall s,
  stateGe (installState s) SUCCESS = false ->
  Forall (calm (startTimestamp s)) es ->
  installPromise s = NotCalled \/ installPromise s = Polling ->
  stateGe (installState (run s es)) SUCCESS = false
  /\ startTimestamp (run s es) = startTimestamp s
  /\ (installPromise (run s es) = NotCalled \/ installPromise (run s es) = Polling).
Proof.
  induction es as [|e es IH]; intros s Hge Hcalm Hp; [done|].
  inversion Hcalm as [|? ? He Hes]; subst.
  destruct (do_calm_step s e Hge He) as [H1 H2].
  destruct (do_step_startTimestamp s e) as [Hts _].
  simpl. destruct (IH (step s e)) as (I1 & I2 & I3); try done.
  - by rewrite Hts.
  - by apply H2.
  - by rewrite I2, Hts.
Qed.

(** The server that the constructor builds from a quiet droplet info. *)
Lemma do_new_quiet session d0 start now0 :
  quiet d0 -> (now0 - start < TIMEOUT_MS)%Z ->
  let s := new session d0 start now0 in
  stateGe (installState s) SUCCESS = false
  /\ startTimestamp s = start
  /\ installPromise s = NotCalled.
Proof.
  intros [Hq1 Hq2] Ht. unfold new.
  set (s0 := {| installState := UNKNOWN; dropletInfo := d0 |}).
  pose proof (do_installState_updateInstallState now0 s0) as Hst.
  pose proof (do_updateInstallState_frame now0 s0) as (F1 & _ & _ & F4 & _).
  simpl in Hst, F1, F4.
  assert (Js.truthy (getTagMap d0 !! INSTALL_ERROR_TAG) = false) as He.
  { destruct (Js.truthy _) eqn:E; [|done]. by apply truthy_present in E. }
  assert ((TIMEOUT_MS <=? now0 - start)%Z = false) as Hto by (apply Z.leb_gt; lia).
  assert ((setApiUrlAndCertificate s0).1 = false) as Hset.
  { destruct (setApiUrlAndCertificate _).1 eqn:E; [|done].
    by apply do_setApiUrlAndCertificate_true in E. }
  rewrite He, Hto, Hset in Hst.
  assert (Hge : stateGe (installState (updateInstallState now0 s0)) SUCCESS = false).
  { rewrite Hst. by repeat case_match. }
  rewrite Hge. simpl. by rewrite F1, F4.
Qed.

(** C5, amended: the deadline of the cached-refresh monitor.  The
    constructor reads [startTimestamp] and no event changes it.  Take a
    server built from a quiet droplet info and left alone: no deletion, no
    failed refresh, and every refresh that succeeds brings a quiet droplet
    info less than 5 minutes (300000 ms) after [startTimestamp], however
    many there are.  Then the state is not terminal and [waitOnInstall] is not
    settled.  The first refresh that succeeds 5 minutes or more after
    [startTimestamp] sets ERROR, whatever it brings, and clears the 3 s
    interval; a pending [waitOnInstall] is rejected with
    ServerInstallFailedError by its next check.  The clock is read only
    then: an event that is neither an answer to a refresh nor the deletion
    leaves the state as it is. *)
Theorem do_timeout_from_construction
    (session : DigitalOceanSession) (d0 : DropletInfo) (start now0 : Z)
    (es : list Event) :
  quiet d0 -> (now0 - start < TIMEOUT_MS)%Z -> Forall (calm start) es ->
  let s := run (new session d0 start now0) es in
  TIMEOUT_MS = 300000%Z
  /\ ~ terminal (installState s)
  /\ startTimestamp s = start
  /\ (installPromise s = NotCalled \/ installPromise s = Polling)
  /\ (forall d now n, refreshing s = S n -> (TIMEOUT_MS <= now - start)%Z ->
        let s1 := step s (DropletFetched (Ok d) now) in
        installState s1 = ERROR
        /\ refreshInterval s1 = false
        /\ (installPromise s = Polling ->
            installPromise (step s1 CheckInterval)
              = Settled (Throw ServerInstallFailedError)))
  /\ (forall e, (forall r now, e <> DropletFetched r now) -> e <> Deleted ->
        installState (step s e) = installState s).
Proof.
  intros Hq Ht Hcalm s.
  destruct (do_new_quiet session d0 start now0 Hq Ht) as (N1 & N2 & N3).
  destruct (do_calm_run es (new session d0 start now0)) as (R1 & R2 & R3);
    [done|by rewrite N2|by left|].
  fold s in R1, R2, R3. rewrite N2 in R2.
  split; [done|]. split; [by apply stateGe_SUCCESS_not_terminal|].
  split; [done|]. split; [done|]. split.
  - intros d now n Hn Hdl s1.
    assert (Hst : installState s1 = ERROR).
    { unfold s1.
      rewrite do_installState_step, Hn, do_installState_refreshed,
        do_installState_updateInstallState.
      simpl. rewrite R1, R2.
      apply Z.leb_le in Hdl. rewrite Hdl. by case_match. }
    split; [done|]. split.
    + revert Hst. unfold s1. simpl. rewrite Hn. unfold refreshed.
      case_match eqn:E; [done|]. intros Hst. rewrite Hst in E. done.
    + intros Hp.
      assert (Hp1 : installPromise s1 = Polling)
        by (unfold s1; by rewrite do_step_installPromise).
      simpl. by apply do_check_final.
  - intros e He1 He2. rewrite do_installState_step.
    destruct e; try done. by destruct (He1 r now).
Qed.

(** *** The hosts *)

Lemma do_step_allocated s e : (allocated s <= allocated (step s e))%nat.
Proof.
  destruct e as [cb| | | |r now| |]; simpl; try done;
    try (unfold checkInstallState; repeat case_match; done).
  - destruct (refreshing s) as [|n]; [done|].
    pose proof (do_refreshed_frame r now (with_refreshing n s)) as (_ & _ & _ & _ & F).
    simpl in F. by rewrite F.
  - lia.
  - pose proof (do_setInstallState_frame DELETED s) as (_ & _ & _ & _ & _ & _ & F & _).
    simpl in F. unfold onDelete. by rewrite F.
Qed.

Lemma do_run_allocated es : forall s,
  (allocated s <= allocated (run s es))%nat /\ digitalOcean (run s es) = digitalOcean s.
Proof.
  induction es as [|e es IH]; intros s; [done|].
  simpl. destruct (IH (step s e)) as [H1 H2].
  pose proof (do_step_allocated s e). destruct (do_step_startTimestamp s e) as [_ H3].
  split; [lia|]. by rewrite H2.
Qed.

(** C9, amended: the host that [getHost] returns.  On the cached-refresh
    server every call builds a new host object (its reference was never
    allocated before, and differs from the reference of every host returned
    later) that holds the session of the server and the droplet info of the
    moment, so the droplet info of the last refresh.  On the direct-poll
    server every call returns the one host object that the constructor built,
    and allocates nothing. *)
Theorem getHost_fresh_or_cached :
  (forall s : DigitalOceanServer,
      let h := (getHost s).1 in
      let s1 := (getHost s).2 in
      host_ref h = allocated s
      /\ host_digitalOcean h = digitalOcean s
      /\ host_dropletInfo h = dropletInfo s
      /\ (forall es,
            let h2 := (getHost (run s1 es)).1 in
            host_ref h2 <> host_ref h
            /\ host_digitalOcean h2 = digitalOcean s
            /\ host_dropletInfo h2 = dropletInfo (run s1 es))
      /\ (forall d now n, refreshing s = S n ->
            host_dropletInfo (getHost (step s (DropletFetched (Ok d) now))).1 = d))
  /\ (forall (g : Gcp.GcpServer) (es : list Gcp.Event),
        (Gcp.getHost (Gcp.run g es)).1 = Gcp.gcpHost g
        /\ (Gcp.getHost g).2 = g).
Proof.
  split.
  - intros s h s1. repeat split; try done.
    + simpl. destruct (do_run_allocated es s1) as [Ha _]. simpl in Ha. lia.
    + simpl. by destruct (do_run_allocated es s1) as [_ ->].
    + intros d now n Hn. simpl. rewrite Hn. unfold refreshed.
      pose proof (do_updateInstallState_frame now (with_dropletInfo d (with_refreshing n s)))
        as (_ & _ & _ & _ & F & _).
      simpl in F. by case_match.
  - intros g es. split; [|done]. simpl. apply gcp_gcpHost_run.
Qed.

(** C1, amended: the order of the states.  On the cached-refresh server no
    event changes a terminal state (SUCCESS, ERROR or DELETED), the deletion
    turns every state that is not terminal into DELETED, and an event does not
    lower a state that is not terminal, except from BOOTED to CREATED.  On the
    direct-poll server, in every state that a run from the constructor
    reaches and that is not terminal, the deletion sets DELETED and, as long
    as [waitOnInstall] was called once at most, no event lowers the state; a
    further call of [waitOnInstall] sets CREATED again when its
    instance-exists signal resolves, whatever the state is. *)
Theorem install_state_order :
  (forall (s : DigitalOceanServer) (e : Event),
      (terminal (installState s) ->
       installState (step s e) = installState s)
      /\ (~ terminal (installState s) ->
          installState (step s Deleted) = DELETED
          /\ ((stateNumber (installState s) <= stateNumber (installState (step s e)))%Z
              \/ (installState s = BOOTED /\ installState (step s e) = CREATED))))
  /\ (forall loc name client (es : list Gcp.Event) (e : Gcp.Event),
        let g := Gcp.run (Gcp.new loc name client) es in
        ~ terminal (Gcp.installState g) ->
        Gcp.installState (Gcp.step g Gcp.Deleted) = DELETED
        /\ (Gcp.moreCalls g = [] ->
            (stateNumber (Gcp.installState g)
               <= stateNumber (Gcp.installState (Gcp.step g e)))%Z))
  /\ (forall (g : Gcp.GcpServer) (i : nat),
        Gcp.moreCalls g !! i = Some Gcp.AwaitCompletion ->
        Gcp.installState (Gcp.step g (Gcp.Resumed i (Gcp.Completion (Ok ())))) = CREATED).
Proof.
  split; [|split].
  - intros s e. split.
    { intros Hge. apply stateGe_SUCCESS_terminal in Hge. by apply do_step_final. }
    intros Hge. apply stateGe_SUCCESS_not_terminal in Hge.
    split; [|by apply do_step_order].
    by rewrite do_installState_step, Hge.
  - intros loc name client es e g Hge. apply stateGe_SUCCESS_not_terminal in Hge.
    split; [done|]. intros Hm.
    apply gcp_step_order; [done|by apply gcp_untouched_run|done].
  - intros g i. apply gcp_later_call_created.
Qed.

(** C2, amended: the deletion of a cached-refresh server whose state is not
    terminal (a transition to ERROR is not made yet) sets DELETED, and the state
    is DELETED in every continuation, also after a refresh that fails; a
    pending [waitOnInstall] is rejected with DeletedServerError, which is not
    ServerInstallFailedError, by its next check.  On the direct-poll server
    the deletion leaves the call of [waitOnInstall] where it is: it rejects
    nothing. *)
Theorem deletion_precedence (s : DigitalOceanServer) :
  ~ terminal (installState s) ->
  let s1 := step s Deleted in
  installState s1 = DELETED
  /\ (forall es, installState (run s1 es) = DELETED)
  /\ (forall e now, installState (step s1 (DropletFetched (Throw e) now)) = DELETED)
  /\ (installPromise s = Polling ->
      forall es, installPromise (step (run s1 es) CheckInterval)
                   = Settled (Throw DeletedServerError))
  /\ DeletedServerError <> ServerInstallFailedError
  /\ (forall g : Gcp.GcpServer, Gcp.call (Gcp.step g Gcp.Deleted) = Gcp.call g).
Proof.
  intros Hge s1. apply stateGe_SUCCESS_not_terminal in Hge.
  assert (Hst : installState s1 = DELETED)
    by (unfold s1; by rewrite do_installState_step, Hge).
  split; [done|]. split; [|split; [|split; [|split; [done|done]]]].
  - intros es. rewrite do_run_final; [done|]. by rewrite Hst.
  - intros e now. rewrite do_step_final; [done|]. by rewrite Hst.
  - intros Hp es.
    apply (do_settles (Throw DeletedServerError) es s1).
    + by rewrite Hst.
    + intros t Ht Hpt. rewrite Hst in Ht. by apply do_check_final.
    + left. unfold s1. by rewrite do_step_installPromise.
Qed.

End DigitalOceanFacts.

(** ** The theorems at concrete servers *)

Section Examples.
Import DigitalOcean.
#[local] Existing Instance hexToStringModel.

(** C1 as worded fails: the states of two concrete servers break the order
    that the spec words: the cached-refresh server goes from BOOTED down to CREATED when
    a refresh finds the tags gone, and the deletion of a direct-poll server
    in ERROR sets DELETED. *)
Lemma install_state_order_counterexample :
  (installState (step doBooted RefreshInterval) = BOOTED
   /\ installState doDemoted = CREATED
   /\ ~ claimedOrder (installState (step doBooted RefreshInterval))
                     (installState doDemoted))
  /\ (Gcp.installState gcpFailed = ERROR
      /\ Gcp.installState (Gcp.step gcpFailed Gcp.Deleted) = DELETED
      /\ ~ claimedOrder (Gcp.installState gcpFailed)
                        (Gcp.installState (Gcp.step gcpFailed Gcp.Deleted))).
Proof.
  split; (split; [by vm_compute|split; [by vm_compute|]]).
  - vm_compute. intros H. by apply H.
  - vm_compute. discriminate.
Qed.

Lemma install_state_order_witness :
  installState (step doRefreshFailed Deleted) = installState doRefreshFailed
  /\ installState (step doRefreshing Deleted) = DELETED
  /\ Gcp.installState (Gcp.step gcpFetching Gcp.Deleted) = DELETED
  /\ (stateNumber (Gcp.installState gcpFetching)
        <= stateNumber
             (Gcp.installState
                (Gcp.step gcpFetching (Gcp.AttributesFetched (Ok (answer [("x", "y")]))))))%Z
  /\ Gcp.installState gcpCalledAgain = SUCCESS
  /\ Gcp.installState
       (Gcp.step gcpCalledAgain (Gcp.Resumed 0 (Gcp.Completion (Ok ())))) = CREATED.
Proof.
  split; [|split; [|split; [|split; [|split; [by vm_compute|]]]]].
  - destruct install_state_order as [H _].
    destruct (H doRefreshFailed Deleted) as [H1 _]. apply H1. right; left. reflexivity.
  - destruct install_state_order as [H _].
    destruct (H doRefreshing Deleted) as [_ H2].
    destruct H2 as [H3 _]; [not_terminal|exact H3].
  - destruct install_state_order as (_ & H & _).
    apply (H sampleLocator "outline-1" 0%nat
             [Gcp.WaitOnInstall; Gcp.CompletionSettled (Ok ())] Gcp.Deleted).
    not_terminal.
  - destruct install_state_order as (_ & H & _).
    destruct (H sampleLocator "outline-1" 0%nat
                [Gcp.WaitOnInstall; Gcp.CompletionSettled (Ok ())]
                (Gcp.AttributesFetched (Ok (answer [("x", "y")])))) as [_ H1];
      [not_terminal|].
    apply H1. reflexivity.
  - destruct install_state_order as (_ & _ & H).
    apply (H gcpCalledAgain 0%nat). reflexivity.
Defined.

(** C2 as worded fails: a direct-poll server is deleted while the fetch that
    will report the install error is on its way: the state ends as ERROR and
    [waitOnInstall] is rejected with ServerInstallFailedError; deleted while
    the call sleeps, [waitOnInstall] returns and its promise is fulfilled.
    The spec has DELETED and the deleted-server error. *)
Lemma deletion_precedence_counterexample :
  (Gcp.installState (Gcp.step gcpFetching Gcp.Deleted) = DELETED
   /\ Gcp.installState gcpDeletedThenFailed = ERROR
   /\ Gcp.call gcpDeletedThenFailed = Gcp.Thrown ServerInstallFailedError
   /\ ~ (Gcp.installState gcpDeletedThenFailed = DELETED
         /\ Gcp.call gcpDeletedThenFailed = Gcp.Thrown DeletedServerError))
  /\ (Gcp.installState gcpDeletedAsleep = DELETED
      /\ Gcp.call gcpDeletedAsleep = Gcp.Returned
      /\ Gcp.call gcpDeletedAsleep <> Gcp.Thrown DeletedServerError).
Proof.
  split; (split; [by vm_compute|split; [by vm_compute|]]).
  - split; [by vm_compute|]. vm_compute. intros [H _]. discriminate H.
  - vm_compute. discriminate.
Qed.

Lemma deletion_precedence_witness :
  installState
    (run (step doRefreshing Deleted) [DropletFetched (Throw (OtherError "network")) 3000])
    = DELETED
  /\ installPromise
       (step
          (run (step doRefreshing Deleted)
               [DropletFetched (Throw (OtherError "network")) 3000])
          CheckInterval)
     = Settled (Throw DeletedServerError).
Proof.
  destruct (deletion_precedence doRefreshing) as (_ & H1 & _ & H2 & _); [not_terminal|].
  split.
  - apply H1.
  - apply H2. reflexivity.
Defined.

(** C4 as worded fails: the droplet has the tag 'kv:install-error:', so the
    error key is in the tag map, bound to the empty text: the evaluation
    sets BOOTED, not ERROR.  The spec has ERROR whenever the error key is
    present. *)
Lemma do_updateInstallState_priority_counterexample :
  getTagMap (droplet "active" emptyErrorTags) !! INSTALL_ERROR_TAG = Some ""
  /\ installState (updateInstallState 3000 (doWith (droplet "active" emptyErrorTags)))
     = BOOTED
  /\ ~ (installState (updateInstallState 3000 (doWith (droplet "active" emptyErrorTags)))
        = ERROR).
Proof.
  split; [by vm_compute|]. split; [by vm_compute|].
  vm_compute. discriminate.
Qed.

Lemma do_updateInstallState_priority_witness :
  installState (updateInstallState 3000 (doWith (droplet "active" errorTags))) = ERROR
  /\ installState (updateInstallState 300000 doWaiting) = ERROR
  /\ (installState (updateInstallState 3000 (doWith (droplet "active" finishedTags)))
        = SUCCESS
      /\ trustedCertificates (updateInstallState 3000 (doWith (droplet "active" finishedTags)))
           = ["TWE="]
      /\ managementApiUrl (updateInstallState 3000 (doWith (droplet "active" finishedTags)))
           = Some "https://h/x/")
  /\ installState (updateInstallState 3000 (doWith (droplet "new" ["kv:a:61"]))) = BOOTED
  /\ installState (updateInstallState 3000 (doWith (droplet "active" []))) = CREATED
  /\ updateInstallState 3000 doWaiting = doWaiting
  /\ updateInstallState 3000 (doWith (droplet "new" protoTags))
     = doWith (droplet "new" protoTags).
Proof.
  split; [|split; [|split; [|split; [|split; [|split]]]]].
  - destruct (do_updateInstallState_priority 3000 (doWith (droplet "active" errorTags)))
      as [H _]; [not_terminal|].
    apply H. exists "true". split; [by vm_compute|discriminate].
  - destruct (do_updateInstallState_priority 300000 doWaiting) as [_ H]; [not_terminal|].
    destruct H as [H _]; [tag_absent|]. apply H. by vm_compute.
  - destruct (do_updateInstallState_priority 3000 (doWith (droplet "active" finishedTags)))
      as [_ H]; [not_terminal|].
    destruct H as [_ H]; [tag_absent|].
    destruct H as [H _]; [by vm_compute|].
    apply (H "TWE=" "https://h/x/"); by vm_compute.
  - destruct (do_updateInstallState_priority 3000 (doWith (droplet "new" ["kv:a:61"])))
      as [_ H]; [not_terminal|].
    destruct H as [_ H]; [tag_absent|].
    destruct H as [_ H]; [by vm_compute|].
    destruct H as [H _]; [not_resolvable|].
    apply H. vm_compute. lia.
  - destruct (do_updateInstallState_priority 3000 (doWith (droplet "active" [])))
      as [_ H]; [not_terminal|].
    destruct H as [_ H]; [tag_absent|].
    destruct H as [_ H]; [by vm_compute|].
    destruct H as [_ H]; [not_resolvable|].
    destruct H as [H _]; [by vm_compute|].
    apply H. reflexivity.
  - destruct (do_updateInstallState_priority 3000 doWaiting) as [_ H]; [not_terminal|].
    destruct H as [_ H]; [tag_absent|].
    destruct H as [_ H]; [by vm_compute|].
    destruct H as [_ H]; [not_resolvable|].
    destruct H as [_ H]; [by vm_compute|].
    apply H. vm_compute. discriminate.
  - destruct (do_updateInstallState_priority 3000 (doWith (droplet "new" protoTags)))
      as [_ H]; [not_terminal|].
    destruct H as [_ H]; [tag_absent|].
    destruct H as [_ H]; [by vm_compute|].
    destruct H as [_ H]; [not_resolvable|].
    destruct H as [_ H]; [by vm_compute|].
    apply H. vm_compute. discriminate.
Defined.

(** C5 as worded fails: a refresh fails 3 s after the construction: [waitOnInstall] is rejected
    with ServerInstallFailedError long before the 5 minutes are over.  No
    refresh is ever answered: after 101 rounds of the 3 s interval (303 s)
    the state is still UNKNOWN and [waitOnInstall] still pending.  The spec
    has the rejection at the deadline in both cases. *)
Lemma do_timeout_counterexample :
  (installPromise doRefreshing = Polling
   /\ installPromise doRefreshFailed = Settled (Throw ServerInstallFailedError)
   /\ ~ (TIMEOUT_MS <= 3000 - startTimestamp doRefreshFailed)%Z)
  /\ (installState doStalled = UNKNOWN
      /\ installPromise doStalled = Polling
      /\ (TIMEOUT_MS < 101 * 3000)%Z).
Proof.
  split; (split; [by vm_compute|split; [by vm_compute|]]).
  - vm_compute. intros H. by apply H.
  - by vm_compute.
Qed.

Lemma do_timeout_from_construction_witness :
  installState
    (step
       (run (new 7 (droplet "new" []) 0 0)
            [WaitOnInstall; RefreshInterval;
             DropletFetched (Ok (droplet "active" ["kv:a:61"])) 3000;
             RefreshInterval])
       (DropletFetched (Ok (droplet "active" ["kv:a:61"])) 300000))
    = ERROR.
Proof.
  destruct (do_timeout_from_construction 7 (droplet "new" []) 0 0
              [WaitOnInstall; RefreshInterval;
               DropletFetched (Ok (droplet "active" ["kv:a:61"])) 3000;
               RefreshInterval])
    as (_ & _ & _ & _ & H & _).
  - split; [tag_absent|not_resolvable].
  - by vm_compute.
  - repeat constructor; try (by vm_compute); [tag_absent|not_resolvable].
  - apply (H (droplet "active" ["kv:a:61"]) 300000%Z 0%nat).
    + reflexivity.
    + by vm_compute.
Defined.

Lemma do_refresh_failure_witness :
  installState (step doRefreshing (DropletFetched (Throw (OtherError "network")) 3000))
    = ERROR
  /\ installPromise doRefreshFailed = Settled (Throw ServerInstallFailedError).
Proof.
  destruct (do_refresh_failure doRefreshing 0 (OtherError "network") 3000)
    as (H1 & _ & _ & H2); [not_terminal|reflexivity|].
  split; [exact H1|].
  destruct (H2 []) as (_ & _ & _ & H3). apply H3. reflexivity.
Defined.

Lemma do_legacy_endpoint_witness :
  getManagementApiAddress (droplet "active" legacyTags) = Ok "https://203.0.113.7:8080/"
  /\ getManagementApiAddress (droplet "active" legacyTagsV1)
       = Ok "https://203.0.113.7:8080/v1/".
Proof.
  split.
  - destruct (do_legacy_endpoint (droplet "active" legacyTags) "203.0.113.7" "8080")
      as [H _]; [tag_absent|by vm_compute|discriminate|reflexivity|discriminate|].
    apply H. tag_absent.
  - destruct (do_legacy_endpoint (droplet "active" legacyTagsV1) "203.0.113.7" "8080")
      as (_ & H & _); [tag_absent|by vm_compute|discriminate|reflexivity|discriminate|].
    apply H. by vm_compute.
Defined.

(** C9 as worded fails: two calls of [getHost] on a direct-poll server
    return the same object,
    the one that the constructor allocated, also after the installation
    failed; no object is allocated.  The spec has a new host at every
    call. *)
Lemma getHost_cached_counterexample :
  (Gcp.getHost sampleGcp).1 = (Gcp.getHost (Gcp.getHost sampleGcp).2).1
  /\ ~ (Gcp.host_ref (Gcp.getHost (Gcp.getHost sampleGcp).2).1
          <> Gcp.host_ref (Gcp.getHost sampleGcp).1)
  /\ Gcp.host_ref (Gcp.getHost gcpFailed).1 = 0%nat
  /\ (Gcp.getHost gcpFailed).1 = Gcp.gcpHost sampleGcp
  /\ Gcp.allocated (Gcp.getHost sampleGcp).2 = Gcp.allocated sampleGcp.
Proof.
  split; [by vm_compute|]. split; [|by vm_compute].
  vm_compute. intros H. by apply H.
Qed.

Lemma getHost_fresh_or_cached_witness :
  host_dropletInfo
    (getHost (step doRefreshing (DropletFetched (Ok (droplet "active" legacyTags)) 3000))).1
    = droplet "active" legacyTags
  /\ host_ref (getHost (getHost doWaiting).2).1 <> host_ref (getHost doWaiting).1.
Proof.
  destruct getHost_fresh_or_cached as [H _].
  split.
  - destruct (H doRefreshing) as (_ & _ & _ & _ & H1).
    apply (H1 (droplet "active" legacyTags) 3000%Z 0%nat). reflexivity.
  - destruct (H doWaiting) as (_ & _ & _ & H2 & _).
    apply (H2 []).
Defined.
End Examples.

(** ** The tag map of a droplet *)

Section TagFacts.
Import Js DigitalOcean.
Context {hex : HexEncoding}.

Lemma toLowerCase_app (a b : string) :
  toLowerCase (a +:+ b) = toLowerCase a +:+ toLowerCase b.
Proof.
  induction a as [|x a IH]; [done|].
  change (String (lowerChar x) (toLowerCase (a +:+ b))
          = String (lowerChar x) (toLowerCase a +:+ toLowerCase b)).
  by rewrite IH.
Qed.

Lemma toLowerCase_length (a : string) : String.length (toLowerCase a) = String.length a.
Proof. induction a as [|x a IH]; simpl; [done|]. by rewrite IH. Qed.

Lemma lowerChar_idemp (c : ascii) : lowerChar (lowerChar c) = lowerChar c.
Proof. destruct c as [[] [] [] [] [] [] [] []]; reflexivity. Qed.

Lemma toLowerCase_idemp (a : string) : toLowerCase (toLowerCase a) = toLowerCase a.
Proof.
  induction a as [|x a IH]; simpl; [done|]. by rewrite lowerChar_idemp, IH.
Qed.

Lemma sliceTo_app (a b : string) : sliceTo (String.length a) (a +:+ b) = a.
Proof.
  unfold sliceTo. induction a as [|x a IH]; [by destruct b|].
  change (String x (substring 0 (String.length a) (a +:+ b)) = String x a).
  by rewrite IH.
Qed.

Lemma breakAt_app sep (a b : string) :
  includesChar sep a = false ->
  breakAt sep (a +:+ String sep b) = (a, Some b).
Proof.
  induction a as [|x a IH]; intros Hc.
  - change (breakAt sep (String sep b) = ("", Some b)). simpl.
    by rewrite Ascii.eqb_refl.
  - simpl in Hc. apply orb_false_iff in Hc as [Hx Ha].
    change (breakAt sep (String x (a +:+ String sep b)) = (String x a, Some b)).
    simpl. rewrite Hx, IH by done. done.
Qed.

Lemma breakAt_none sep (a : string) :
  includesChar sep a = false -> breakAt sep a = (a, None).
Proof.
  induction a as [|x a IH]; intros Hc; [done|].
  simpl in Hc. apply orb_false_iff in Hc as [Hx Ha].
  simpl. by rewrite Hx, IH.
Qed.

(** A prefix that reads "kv" in lower case passes the test of [getTagMap],
    and the rest of the tag is what follows its colon. *)
Lemma kv_prefix p rest :
  toLowerCase p = KEY_VALUE_TAG ->
  isKeyValueTag (p +:+ ":" +:+ rest) = true
  /\ sliceFrom (String.length (KEY_VALUE_TAG +:+ ":")) (p +:+ ":" +:+ rest) = rest.
Proof.
  intros Hp.
  assert (Hlen : String.length p = 2%nat).
  { by rewrite <- toLowerCase_length, Hp. }
  assert (Hl3 : String.length (KEY_VALUE_TAG +:+ ":") = String.length (p +:+ ":")).
  { rewrite (string_length_app p), Hlen. done. }
  rewrite <- string_app_assoc. split.
  - unfold isKeyValueTag, startsWithCaseInsensitive.
    rewrite Hl3, sliceTo_app, toLowerCase_app, Hp. done.
  - by rewrite Hl3, sliceFrom_app.
Qed.

Lemma split2_key_value (k h : string) :
  includesChar ":" k = false -> includesChar ":" h = false ->
  split2 ":" (k +:+ ":" +:+ h) = (k, Some h)
  /\ (forall rest, split2 ":" (k +:+ ":" +:+ h +:+ ":" +:+ rest) = (k, Some h))
  /\ split2 ":" k = (k, None).
Proof.
  intros Hk Hh. unfold split2. repeat split.
  - change (":" +:+ h) with (String ":" h).
    rewrite breakAt_app by done. simpl. by rewrite breakAt_none.
  - intros rest. change (":" +:+ h +:+ ":" +:+ rest) with (String ":" (h +:+ ":" +:+ rest)).
    rewrite breakAt_app by done. simpl.
    change (":" +:+ rest) with (String ":" rest). by rewrite breakAt_app.
  - by rewrite breakAt_none.
Qed.

(** A tag with the prefix "kv" is decoded from the two pieces of its
    rest. *)
Lemma addTag_key_value ret q key tail value :
  toLowerCase q = KEY_VALUE_TAG ->
  split2 ":" tail = (key, value) ->
  addTag ret (q +:+ ":" +:+ tail)
    = match hexToString value with
      | Ok v => objectSet ret (toLowerCase key) v
      | Throw _ => ret
      end.
Proof.
  intros Hq Hs. unfold addTag.
  destruct (kv_prefix q tail Hq) as [H1 H2]. unfold isKeyValueTag in H1.
  rewrite H1, H2, Hs. done.
Qed.

Lemma objectSet_proto ret k v : k = "__proto__" -> objectSet ret k v = ret.
Proof. intros ->. done. Qed.

Lemma objectSet_other ret k v : k <> "__proto__" -> objectSet ret k v = <[k := v]> ret.
Proof. intros H. unfold objectSet. apply String.eqb_neq in H. by rewrite H. Qed.

(** X1: how [getTagMap] reads one tag of the form prefix:key:hex.  When the
    prefix is "kv" in any case and neither the key nor the hex text has a
    colon, the tag assigns the decoded value to the key, put in lower case,
    or leaves the object as it is when the decoding throws.  The assignment
    binds the key to the value, unless the key is '__proto__' in any case:
    then it reaches the setter of the prototype and the object is left as it
    is.  What follows a third colon is dropped, a tag with no value part is
    decoded from [undefined], and two tags that differ only in the case of
    the prefix and of the key give the same entry. *)
Theorem do_tag_decoding (ret : gmap string string) (p k h : string) :
  toLowerCase p = KEY_VALUE_TAG ->
  includesChar ":" k = false ->
  includesChar ":" h = false ->
  let entry v := match v with
                 | Ok v => objectSet ret (toLowerCase k) v
                 | Throw _ => ret
                 end in
  addTag ret (p +:+ ":" +:+ k +:+ ":" +:+ h) = entry (hexToString (Some h))
  /\ (forall rest,
        addTag ret (p +:+ ":" +:+ k +:+ ":" +:+ h +:+ ":" +:+ rest)
          = entry (hexToString (Some h)))
  /\ addTag ret (p +:+ ":" +:+ k) = entry (hexToString None)
  /\ (forall p' k',
        toLowerCase p' = KEY_VALUE_TAG ->
        toLowerCase k' = toLowerCase k ->
        includesChar ":" k' = false ->
        addTag ret (p' +:+ ":" +:+ k' +:+ ":" +:+ h) = entry (hexToString (Some h)))
  /\ (toLowerCase k = "__proto__" -> forall v, entry v = ret)
  /\ (toLowerCase k <> "__proto__" ->
      forall v, entry (Ok v) = <[toLowerCase k := v]> ret).
Proof.
  intros Hp Hk Hh entry.
  destruct (split2_key_value k h Hk Hh) as (S1 & S2 & S3).
  split; [|split; [|split; [|split; [|split]]]].
  - by rewrite (addTag_key_value ret p k _ (Some h)).
  - intros rest. by rewrite (addTag_key_value ret p k _ (Some h)).
  - by rewrite (addTag_key_value ret p k _ None).
  - intros p' k' Hp' Hk' Hc.
    destruct (split2_key_value k' h Hc Hh) as (S1' & _).
    rewrite (addTag_key_value ret p' k' _ (Some h)) by done. by rewrite Hk'.
  - intros Hproto [v|e]; [|done]. by apply objectSet_proto.
  - intros Hproto v. by apply objectSet_other.
Qed.

Lemma addTag_other ret tag : isKeyValueTag tag = false -> addTag ret tag = ret.
Proof. unfold isKeyValueTag, addTag. by intros ->. Qed.

Lemma foldl_addTag_filter tags : forall ret,
  foldl addTag ret (List.filter isKeyValueTag tags) = foldl addTag ret tags.
Proof.
  induction tags as [|tag tags IH]; intros ret; [done|].
  simpl. destruct (isKeyValueTag tag) eqn:E; simpl.
  - apply IH.
  - by rewrite IH, addTag_other.
Qed.

(** X2: [getTagMap] does not look at the tags that do not start with "kv:":
    the map read from the tags of a droplet is the map read from its
    key-value tags alone, so a droplet with no such tag has the empty
    map. *)
Theorem do_other_tags_ignored (d : DropletInfo) :
  getTagMap d = foldl addTag ∅ (List.filter isKeyValueTag (tags d))
  /\ (List.filter isKeyValueTag (tags d) = [] -> getTagMap d = ∅).
Proof.
  unfold getTagMap. rewrite foldl_addTag_filter. split; [done|].
  intros Hnone. by rewrite <- foldl_addTag_filter, Hnone.
Qed.

Lemma objectSet_keys ret key v k :
  is_Some (objectSet ret key v !! k) -> is_Some (ret !! k) \/ (k = key /\ k <> "__proto__").
Proof.
  unfold objectSet. destruct (String.eqb_spec key "__proto__") as [->|Hne]; [by left|].
  destruct (decide (key = k)) as [<-|Hk].
  - intros _. by right.
  - rewrite lookup_insert_ne by done. by left.
Qed.

Lemma objectSet_size ret key v : (size (objectSet ret key v) <= size ret + 1)%nat.
Proof.
  unfold objectSet. case_match; [lia|].
  destruct (ret !! key) eqn:E.
  - rewrite map_size_insert_Some by eauto. lia.
  - rewrite map_size_insert_None by done. lia.
Qed.

Lemma addTag_keys ret tag k :
  is_Some (addTag ret tag !! k) ->
  is_Some (ret !! k) \/ (toLowerCase k = k /\ k <> "__proto__").
Proof.
  unfold addTag. case_match; [by left|].
  destruct (split2 ":" _) as [key hexValue].
  destruct (hexToString hexValue) as [v|e]; [|by left].
  intros Hs. apply objectSet_keys in Hs as [H1|[-> H2]]; [by left|].
  right. split; [apply toLowerCase_idemp|done].
Qed.

Lemma addTag_size ret tag :
  (size (addTag ret tag) <= size ret + (if isKeyValueTag tag then 1 else 0))%nat.
Proof.
  unfold addTag, isKeyValueTag.
  destruct (startsWithCaseInsensitive tag _); simpl; [|lia].
  destruct (split2 ":" _) as [key hexValue].
  destruct (hexToString hexValue) as [v|e]; [|lia].
  apply objectSet_size.
Qed.

Lemma foldl_addTag_keys tags : forall ret k,
  is_Some (foldl addTag ret tags !! k) ->
  is_Some (ret !! k) \/ (toLowerCase k = k /\ k <> "__proto__").
Proof.
  induction tags as [|tag tags IH]; intros ret k; [by left|].
  simpl. intros H. destruct (IH _ _ H) as [H1|H1]; [|by right].
  by apply addTag_keys in H1.
Qed.

Lemma foldl_addTag_size tags : forall ret,
  (size (foldl addTag ret tags)
     <= size ret + length (List.filter isKeyValueTag tags))%nat.
Proof.
  induction tags as [|tag tags IH]; intros ret; simpl; [lia|].
  pose proof (IH (addTag ret tag)). pose proof (addTag_size ret tag).
  destruct (isKeyValueTag tag); simpl; lia.
Qed.

(** The keys that the class looks up in a tag map. *)
Lemma do_keys_not_inherited k :
  k ∈ [INSTALL_ERROR_TAG; API_URL_TAG; CERTIFICATE_FINGERPRINT_TAG;
       DEPRECATED_API_PORT_TAG; DEPRECATED_API_PREFIX_TAG] ->
  bool_decide (k ∈ objectPrototypeMembers) = false.
Proof.
  intros H. repeat (apply elem_of_cons in H as [->|H]; [by vm_compute|]).
  by apply elem_of_nil in H.
Qed.

(** X3: what every tag map keeps.  Its own keys are in lower case and none
    is '__proto__', so a bracket lookup with a key that has a capital finds
    no tag: it finds a member of [Object.prototype] when the key names one
    (as 'toString' does), and [undefined] otherwise.  For the five keys that
    the class looks up, the bracket lookup is the lookup of an own
    property.  The map has at most as many entries as the droplet has
    key-value tags. *)
Theorem do_tag_map_keys (d : DropletInfo) (k : string) :
  (is_Some (getTagMap d !! k) -> toLowerCase k = k /\ k <> "__proto__")
  /\ (toLowerCase k <> k ->
      objectGet (getTagMap d) k
        = if bool_decide (k ∈ objectPrototypeMembers) then Inherited else Undefined)
  /\ (k ∈ [INSTALL_ERROR_TAG; API_URL_TAG; CERTIFICATE_FINGERPRINT_TAG;
           DEPRECATED_API_PORT_TAG; DEPRECATED_API_PREFIX_TAG] ->
      objectGet (getTagMap d) k
        = match getTagMap d !! k with Some v => Own v | None => Undefined end)
  /\ (size (getTagMap d) <= length (List.filter isKeyValueTag (tags d)))%nat.
Proof.
  assert (H1 : is_Some (getTagMap d !! k) -> toLowerCase k = k /\ k <> "__proto__").
  { intros H. apply foldl_addTag_keys in H as [H|H]; [|done].
    rewrite lookup_empty in H. by destruct H. }
  split; [done|]. split; [|split].
  - intros Hne. unfold objectGet. destruct (getTagMap d !! k) eqn:E; [|done].
    exfalso. apply Hne, H1. eauto.
  - intros Hk. unfold objectGet. destruct (getTagMap d !! k); [done|].
    by rewrite do_keys_not_inherited.
  - pose proof (foldl_addTag_size (tags d) ∅) as H. by rewrite map_size_empty in H.
Qed.

(** X4: the last tag wins.  When the tags of a droplet end with a tag
    prefix:key:hex whose key is not '__proto__' in any case and whose value
    decodes to [v], the map binds the key, in lower case, to [v], whatever
    the tags before it bound it to. *)
Theorem do_last_tag_wins (d : DropletInfo) (before : list string) (p k h v : string) :
  tags d = (before ++ [p +:+ ":" +:+ k +:+ ":" +:+ h])%list ->
  toLowerCase p = KEY_VALUE_TAG ->
  includesChar ":" k = false ->
  includesChar ":" h = false ->
  toLowerCase k <> "__proto__" ->
  hexToString (Some h) = Ok v ->
  getTagMap d !! toLowerCase k = Some v.
Proof.
  intros Ht Hp Hk Hh Hproto Hv. unfold getTagMap. rewrite Ht, foldl_app. simpl.
  destruct (split2_key_value k h Hk Hh) as (S1 & _).
  rewrite (addTag_key_value _ p k _ (Some h)), Hv by done.
  rewrite objectSet_other by done. apply lookup_insert_eq.
Qed.

End TagFacts.

(** ** More about the cached-refresh monitor *)

Section DigitalOceanMore.
Import DigitalOcean.
Context {hex : HexEncoding}.

Lemma stateGe_terminal_dec a : {terminal a} + {~ terminal a}.
Proof.
  destruct (stateGe a SUCCESS) eqn:E.
  - left. by apply stateGe_SUCCESS_terminal.
  - right. by apply stateGe_SUCCESS_not_terminal.
Qed.

(** *** Trust *)

(** [updateInstallState] either leaves the trusted certificates and the
    endpoint alone, or reaches SUCCESS and adds the two values read from the
    tags. *)
Lemma do_updateInstallState_trust now s :
  let s' := updateInstallState now s in
  (trustedCertificates s' = trustedCertificates s
   /\ managementApiUrl s' = managementApiUrl s
   /\ (installState s' = SUCCESS -> installState s = SUCCESS))
  \/ (~ terminal (installState s)
      /\ installState s' = SUCCESS
      /\ exists fingerprint apiAddress,
           getCertificateFingerprint (dropletInfo s) = Ok fingerprint
           /\ getManagementApiAddress (dropletInfo s) = Ok apiAddress
           /\ trustedCertificates s' = (trustedCertificates s ++ [fingerprint])%list
           /\ managementApiUrl s' = Some apiAddress).
Proof.
  intros s'.
  pose proof (do_installState_updateInstallState now s) as Hst. fold s' in Hst.
  destruct (stateGe (installState s) SUCCESS) eqn:Hge.
  { left. unfold s', updateInstallState. by rewrite Hge. }
  assert (Hsame : forall x, x <> SUCCESS ->
            trustedCertificates (setInstallState x s) = trustedCertificates s
            /\ managementApiUrl (setInstallState x s) = managementApiUrl s
            /\ (installState (setInstallState x s) = SUCCESS -> installState s = SUCCESS)).
  { intros x Hx.
    pose proof (do_setInstallState_frame x s) as (_ & _ & _ & _ & _ & _ & _ & F1 & F2).
    rewrite do_installState_setInstallState, Hge. done. }
  clear Hst. unfold s', updateInstallState. rewrite Hge.
  destruct (Js.truthy _); [left; by apply Hsame|].
  destruct (TIMEOUT_MS <=? now - startTimestamp s)%Z; [left; by apply Hsame|].
  assert (Hrest : setApiUrlAndCertificate s = (false, s) ->
            let '(ok, s1) := setApiUrlAndCertificate s in
            let t := if ok then setInstallState SUCCESS s1
                     else if (0 <? size (getTagMap (dropletInfo s)))%nat
                          then setInstallState BOOTED s
                          else if String.eqb (status (dropletInfo s)) "active"
                               then setInstallState CREATED s else s in
            trustedCertificates t = trustedCertificates s
            /\ managementApiUrl t = managementApiUrl s
            /\ (installState t = SUCCESS -> installState s = SUCCESS)).
  { intros ->. destruct (0 <? _)%nat; [by apply Hsame|].
    destruct (String.eqb _ _); [by apply Hsame|done]. }
  destruct (getCertificateFingerprint (dropletInfo s)) as [fp|e1] eqn:Hf.
  - destruct (getManagementApiAddress (dropletInfo s)) as [addr|e2] eqn:Ha.
    + right. rewrite (do_setApiUrlAndCertificate_effects s fp addr Hf Ha).
      split; [by apply stateGe_SUCCESS_not_terminal|].
      pose proof (do_setInstallState_frame SUCCESS
        (setManagementApiUrl addr (trustCertificate fp s)))
        as (_ & _ & _ & _ & _ & _ & _ & F1 & F2).
      simpl in F1, F2. rewrite do_installState_setInstallState. simpl. rewrite Hge.
      split; [done|]. exists fp, addr. by rewrite F1, F2.
    + left. assert (Hs : setApiUrlAndCertificate s = (false, s))
        by (unfold setApiUrlAndCertificate; by rewrite Hf, Ha).
      specialize (Hrest Hs). by rewrite Hs in Hrest |- *.
  - left. assert (Hs : setApiUrlAndCertificate s = (false, s))
      by (unfold setApiUrlAndCertificate; by rewrite Hf).
    specialize (Hrest Hs). by rewrite Hs in Hrest |- *.
Qed.

Lemma do_step_trust s e :
  let s' := step s e in
  (trustedCertificates s' = trustedCertificates s
   /\ managementApiUrl s' = managementApiUrl s
   /\ (installState s' = SUCCESS -> installState s = SUCCESS))
  \/ (~ terminal (installState s)
      /\ installState s' = SUCCESS
      /\ exists fingerprint apiAddress,
           getCertificateFingerprint (dropletInfo s') = Ok fingerprint
           /\ getManagementApiAddress (dropletInfo s') = Ok apiAddress
           /\ trustedCertificates s' = (trustedCertificates s ++ [fingerprint])%list
           /\ managementApiUrl s' = Some apiAddress).
Proof.
  intros s'. unfold s'.
  destruct e as [cb| | | |r now| |]; simpl;
    try (left; unfold checkInstallState; repeat case_match; done).
  - destruct (refreshing s) as [|n]; [by left|].
    unfold refreshed. destruct r as [d|err].
    + pose proof (do_updateInstallState_trust now (with_dropletInfo d (with_refreshing n s)))
        as H.
      pose proof (do_updateInstallState_frame now (with_dropletInfo d (with_refreshing n s)))
        as (_ & _ & _ & _ & Fd & _).
      simpl in H, Fd.
      destruct H as [H|(H1 & H2 & fp & addr & H3 & H4 & H5 & H6)].
      * left. by case_match.
      * right. split; [done|]. split; [by case_match|].
        exists fp, addr. case_match; simpl; rewrite Fd; done.
    + left.
      pose proof (do_setInstallState_frame ERROR (with_refreshing n s))
        as (_ & _ & _ & _ & _ & _ & _ & F1 & F2).
      simpl in F1, F2. simpl. rewrite F1, F2.
      rewrite do_installState_setInstallState. simpl.
      split; [done|]. split; [done|]. by case_match.
  - left.
    pose proof (do_setInstallState_frame DELETED s)
      as (_ & _ & _ & _ & _ & _ & _ & F1 & F2).
    unfold onDelete. rewrite F1, F2, do_installState_setInstallState.
    split; [done|]. split; [done|]. by case_match.
Qed.

(** X5: the certificate is trusted once.  Along every run, from every
    state: when the run takes the server from a state that is not terminal
    to SUCCESS, exactly one certificate was trusted and the endpoint
    recorded, and the endpoint ends with "/"; in every other case (the run
    ends elsewhere, or it started in a terminal state) no certificate was
    trusted and the endpoint is what it was. *)
Theorem do_trusts_once (es : list Event) : forall s : DigitalOceanServer,
  (~ terminal (installState s) -> installState (run s es) = SUCCESS ->
     exists fingerprint apiAddress,
       trustedCertificates (run s es) = (trustedCertificates s ++ [fingerprint])%list
       /\ managementApiUrl (run s es) = Some apiAddress
       /\ Js.endsWith apiAddress "/" = true)
  /\ (terminal (installState s) \/ installState (run s es) <> SUCCESS ->
      trustedCertificates (run s es) = trustedCertificates s
      /\ managementApiUrl (run s es) = managementApiUrl s).
Proof.
  induction es as [|e es IH]; intros s.
  { simpl. split; [|done]. intros Hnt Hs. exfalso. apply Hnt. rewrite Hs. by left. }
  simpl. destruct (IH (step s e)) as [IH1 IH2].
  destruct (do_step_trust s e) as [(T1 & T2 & T3)|(T1 & T2 & fp & addr & T3 & T4 & T5 & T6)].
  - split.
    + intros Hnt Hs.
      destruct (stateGe_terminal_dec (installState (step s e))) as [Ht|Ht].
      * exfalso. apply Hnt.
        rewrite do_run_final in Hs by (by apply stateGe_SUCCESS_terminal).
        rewrite (T3 Hs). by left.
      * destruct (IH1 Ht Hs) as (fp & addr & H1 & H2 & H3).
        exists fp, addr. by rewrite H1, T1.
    + intros [Ht|Hs].
      * destruct IH2 as [H1 H2].
        { left. rewrite do_step_final by (by apply stateGe_SUCCESS_terminal). done. }
        by rewrite H1, H2, T1, T2.
      * destruct IH2 as [H1 H2]; [by right|]. by rewrite H1, H2, T1, T2.
  - assert (Hterm : terminal (installState (step s e))) by (rewrite T2; by left).
    destruct IH2 as [H1 H2]; [by left|].
    assert (Hrun : installState (run (step s e) es) = SUCCESS).
    { rewrite do_run_final by (by apply stateGe_SUCCESS_terminal). done. }
    split.
    + intros _ _. exists fp, addr. rewrite H1, H2, T5, T6.
      split; [done|]. split; [done|].
      by apply (do_managementApiAddress_slash _ _ _ T4).
    + intros [Ht|Hs]; done.
Qed.

(** *** The promise of [waitOnInstall] *)

Lemma do_settled_step s e : doSettledAsState s -> doSettledAsState (step s e).
Proof.
  unfold doSettledAsState. intros Hs.
  assert (Hkeep : installPromise (step s e) = installPromise s ->
            match installPromise (step s e) with
            | NotCalled | Polling => True
            | Cleared => False
            | Settled (Ok _) => installState (step s e) = SUCCESS
            | Settled (Throw ServerInstallFailedError) => installState (step s e) = ERROR
            | Settled (Throw DeletedServerError) => installState (step s e) = DELETED
            | Settled (Throw (OtherError _)) => False
            end).
  { intros ->. destruct (installPromise s) as [| | |[[]|[| |msg]]]; try done;
      rewrite do_step_final; try done; by rewrite Hs. }
  destruct e as [cb| | | |r now| |]; try (apply Hkeep; by apply do_step_installPromise).
  - destruct (installPromise s) eqn:Hp; try (apply Hkeep; simpl; by rewrite Hp).
    simpl. by rewrite Hp.
  - destruct (installPromise s) eqn:Hp; try (apply Hkeep; simpl; unfold checkInstallState;
      by rewrite Hp).
    simpl. unfold checkInstallState. rewrite Hp.
    destruct (installState s) eqn:E; simpl; by rewrite ?Hp, ?E.
Qed.

Lemma do_new_installPromise session d start now :
  installPromise (new session d start now) = NotCalled.
Proof.
  unfold new.
  match goal with |- context [updateInstallState now ?s0] =>
    pose proof (do_updateInstallState_frame now s0) as (_ & _ & _ & F & _)
  end.
  simpl in F. by case_match.
Qed.

(** X6: the promise of [waitOnInstall] agrees with the state.  Along every
    run from the constructor the promise is pending while it is not
    settled by a check, fulfilled only in SUCCESS, rejected with
    ServerInstallFailedError only in ERROR and with DeletedServerError only
    in DELETED, and its interval is never cleared with the promise left
    pending; so a settled promise means a terminal state, and it never
    changes. *)
Theorem do_promise_agrees
    (session : DigitalOceanSession) (d : DropletInfo) (start now : Z)
    (es : list Event) :
  let s := run (new session d start now) es in
  doSettledAsState s
  /\ (forall r, installPromise s = Settled r ->
        terminal (installState s)
        /\ forall es', installPromise (run s es') = Settled r).
Proof.
  intros s.
  assert (Hinv : forall es' t, doSettledAsState t -> doSettledAsState (run t es')).
  { induction es' as [|e es' IH]; intros t Ht; [done|].
    simpl. apply IH. by apply do_settled_step. }
  assert (Hs : doSettledAsState s).
  { apply Hinv. unfold doSettledAsState. by rewrite do_new_installPromise. }
  split; [done|]. intros r Hr.
  assert (Ht : terminal (installState s)).
  { unfold doSettledAsState in Hs. rewrite Hr in Hs. unfold terminal.
    destruct r as [[]|[| |msg]]; tauto. }
  split; [done|].
  induction es' as [|e es' IH] using rev_ind; [done|].
  unfold run in *. rewrite foldl_app. simpl.
  destruct e as [cb| | | |r' now'| |]; try (by rewrite do_step_installPromise).
  - simpl. by rewrite IH.
  - simpl. unfold checkInstallState. by rewrite IH.
Qed.

(** *** The listener *)

Lemma doInformed_same s t :
  listener t = listener s -> progressCalls t = progressCalls s ->
  installState t = installState s ->
  doInformed s -> doInformed t.
Proof.
  unfold doInformed, installProgress. intros -> -> ->. done.
Qed.

Lemma doInformed_notifyListener t : doInformed (notifyListener t).
Proof.
  unfold doInformed, notifyListener, installProgress.
  destruct (listener t) as [cb'|] eqn:Hl; simpl; intros cb Hcb.
  - rewrite Hl in Hcb. injection Hcb as ->. by rewrite last_snoc.
  - by rewrite Hl in Hcb.
Qed.

Lemma doInformed_setInstallState x s : doInformed s -> doInformed (setInstallState x s).
Proof.
  intros Hs. unfold setInstallState.
  destruct (stateGe (installState s) SUCCESS); [done|].
  apply doInformed_notifyListener.
Qed.

Lemma do_setApiUrlAndCertificate_listener s :
  let s' := (setApiUrlAndCertificate s).2 in
  listener s' = listener s /\ progressCalls s' = progressCalls s
  /\ localStorage s' = localStorage s.
Proof. unfold setApiUrlAndCertificate. repeat case_match; done. Qed.

Lemma doInformed_updateInstallState now s :
  doInformed s -> doInformed (updateInstallState now s).
Proof.
  intros Hs. unfold updateInstallState.
  pose proof (do_setApiUrlAndCertificate_listener s) as (L1 & L2 & _).
  pose proof (do_setApiUrlAndCertificate_frame s) as (L3 & _).
  destruct (setApiUrlAndCertificate s) as [ok s1]. simpl in *.
  repeat case_match; try done; try (by apply doInformed_setInstallState).
  apply doInformed_setInstallState. by apply (doInformed_same s).
Qed.

Lemma doInformed_step s e : doInformed s -> doInformed (step s e).
Proof.
  intros Hs. destruct e as [cb| | | |r now| |]; simpl.
  - apply doInformed_notifyListener.
  - by case_match.
  - unfold checkInstallState. repeat case_match; done.
  - repeat case_match; done.
  - destruct (refreshing s) as [|n]; [done|].
    unfold refreshed. destruct r as [d|err].
    + assert (H : doInformed (updateInstallState now
                    (with_dropletInfo d (with_refreshing n s)))).
      { apply doInformed_updateInstallState. by apply (doInformed_same s). }
      case_match; [|done]. by apply (doInformed_same _ _ eq_refl eq_refl eq_refl).
    + assert (H : doInformed (setInstallState ERROR (with_refreshing n s))).
      { apply doInformed_setInstallState. by apply (doInformed_same s). }
      by apply (doInformed_same _ _ eq_refl eq_refl eq_refl).
  - done.
  - by apply doInformed_setInstallState.
Qed.

(** X7: the listener of a cached-refresh server is never stale.  From the
    call of [setProgressListener] on, after every later event and along
    every run, the last call of the registered listener carries the
    progress of the current state: the listener was called at the
    registration and by every change of the state. *)
Theorem do_listener_informed (s : DigitalOceanServer) (cb : nat) (es : list Event) :
  let s1 := step s (SetProgressListener cb) in
  last (progressCalls s1) = Some (cb, installProgress s)
  /\ doInformed (run s1 es)
  /\ (forall cb', listener (run s1 es) = Some cb' ->
        last (progressCalls (run s1 es)) = Some (cb', installProgress (run s1 es))).
Proof.
  intros s1.
  assert (H1 : doInformed s1) by apply doInformed_notifyListener.
  assert (Hrun : forall es' t, doInformed t -> doInformed (run t es')).
  { induction es' as [|e es' IH]; intros t Ht; [done|].
    simpl. apply IH. by apply doInformed_step. }
  split; [|split; [by apply Hrun|apply (Hrun es s1 H1)]].
  unfold s1. simpl. unfold setProgressListener, notifyListener, installProgress. simpl.
  by rewrite last_snoc.
Qed.

(** *** The refreshes and the stored flag *)

Lemma do_step_refreshing_terminal s e :
  terminal (installState s) -> (refreshing (step s e) <= refreshing s)%nat.
Proof.
  intros Ht. apply stateGe_SUCCESS_terminal in Ht.
  destruct e as [cb| | | |r now| |]; simpl; try done;
    try (unfold checkInstallState; repeat case_match; done).
  - destruct (refreshing s) as [|n] eqn:Hn; [by rewrite Hn|].
    pose proof (do_refreshed_frame r now (with_refreshing n s)) as (_ & F2 & _).
    simpl in F2. rewrite F2. lia.
  - pose proof (do_setInstallState_frame DELETED s) as (_ & _ & F3 & _). simpl in F3.
    unfold onDelete. by rewrite F3.
Qed.

Lemma do_run_refreshing_terminal es : forall s,
  terminal (installState s) -> (refreshing (run s es) <= refreshing s)%nat.
Proof.
  induction es as [|e es IH]; intros s Ht; [done|].
  simpl. pose proof (do_step_refreshing_terminal s e Ht).
  assert (Ht' : terminal (installState (step s e))).
  { rewrite do_step_final; [done|]. by apply stateGe_SUCCESS_terminal. }
  pose proof (IH _ Ht'). lia.
Qed.

(** X8: no request once the state is terminal.  In a terminal state no
    event starts a refresh of the droplet info: along every run the number
    of refreshes on their way only goes down.  A server built from a
    droplet info that already shows a finished installation (no error tag,
    the fingerprint and the endpoint readable, the clock not past the
    deadline) is in SUCCESS at once, never starts its 3 s interval and
    never asks for the droplet info. *)
Theorem do_no_refresh_when_terminal :
  (forall (s : DigitalOceanServer) (es : list Event),
      terminal (installState s) -> (refreshing (run s es) <= refreshing s)%nat)
  /\ (forall session (d : DropletInfo) (start now : Z) (es : list Event),
        ~ present (getTagMap d) INSTALL_ERROR_TAG ->
        (now - start < TIMEOUT_MS)%Z ->
        resolvable d ->
        let s := new session d start now in
        installState s = SUCCESS
        /\ refreshInterval s = false
        /\ refreshing (run s es) = 0%nat).
Proof.
  split; [intros s es; apply do_run_refreshing_terminal|].
  intros session d start now es He Ht Hr s.
  set (s0 := {| installState := UNKNOWN; listener := None; digitalOcean := session;
                dropletInfo := d; managementApiUrl := None;
                startTimestamp := start; refreshInterval := false; refreshing := 0;
                installPromise := NotCalled; progressCalls := [];
                trustedCertificates := []; localStorage := ∅; allocated := 0 |}).
  pose proof (do_installState_updateInstallState now s0) as Hst.
  pose proof (do_updateInstallState_frame now s0) as (_ & F2 & F3 & _).
  simpl in Hst, F2, F3.
  assert (Js.truthy (getTagMap d !! INSTALL_ERROR_TAG) = false) as He'.
  { destruct (Js.truthy _) eqn:E; [|done]. by apply truthy_present in E. }
  assert ((TIMEOUT_MS <=? now - start)%Z = false) as Hto by (apply Z.leb_gt; lia).
  assert ((setApiUrlAndCertificate s0).1 = true) as Hset
    by (by apply do_setApiUrlAndCertificate_true).
  rewrite He', Hto, Hset in Hst.
  assert (Hs : s = updateInstallState now s0).
  { unfold s, new. fold s0. by rewrite Hst. }
  rewrite Hs. split; [done|]. split; [done|].
  pose proof (do_run_refreshing_terminal es (updateInstallState now s0)) as H.
  rewrite F3 in H. assert (terminal SUCCESS) by (by left).
  rewrite Hst in H. specialize (H ltac:(done)). lia.
Qed.

Lemma do_setInstallState_storage x s :
  localStorage (setInstallState x s) =
    if stateGe (installState s) SUCCESS then localStorage s
    else if decide (x = SUCCESS)
         then <[getInstallCompletedStorageKey s := "true"]> (localStorage s)
         else localStorage s.
Proof.
  unfold setInstallState, notifyListener, setInstallCompleted.
  repeat case_match; simpl in *; done.
Qed.

Lemma do_updateInstallState_storage now s :
  localStorage (updateInstallState now s) =
    if decide (installState (updateInstallState now s) = SUCCESS
               /\ installState s <> SUCCESS)
    then <[getInstallCompletedStorageKey s := "true"]> (localStorage s)
    else localStorage s.
Proof.
  pose proof (do_installState_updateInstallState now s) as Hst.
  unfold updateInstallState in *.
  pose proof (do_setApiUrlAndCertificate_listener s) as (_ & _ & L).
  pose proof (do_setApiUrlAndCertificate_frame s) as (L1 & _ & _ & _ & _ & L2 & _).
  destruct (stateGe (installState s) SUCCESS) eqn:Hge.
  { case_decide as H; [|done]. destruct H as [H1 H2]. by rewrite H1 in H2. }
  assert (Hne : installState s <> SUCCESS) by (intros E; by rewrite E in Hge).
  destruct (Js.truthy _).
  { rewrite do_setInstallState_storage, Hge, Hst. by repeat case_decide; try tauto. }
  destruct (TIMEOUT_MS <=? now - startTimestamp s)%Z.
  { rewrite do_setInstallState_storage, Hge, Hst. by repeat case_decide; try tauto. }
  destruct (setApiUrlAndCertificate s) as [ok s1]. simpl in *.
  destruct ok.
  { rewrite do_setInstallState_storage, L1, Hge, Hst, L.
    unfold getInstallCompletedStorageKey. rewrite L2.
    repeat case_decide; try tauto; done. }
  destruct (0 <? _)%nat.
  { rewrite do_setInstallState_storage, Hge, Hst. by repeat case_decide; try tauto. }
  destruct (String.eqb _ _).
  { rewrite do_setInstallState_storage, Hge, Hst. by repeat case_decide; try tauto. }
  case_decide as H; [|done]. destruct H as [H1 H2]. done.
Qed.

(** X9: the stored flag of a cached-refresh server.  An event that takes
    the server to SUCCESS stores 'true' under the install-completed key of
    its droplet, so that [isInstallCompleted] is true; every other event
    leaves localStorage as it is: an error, a timeout or a deletion stores
    nothing. *)
Theorem do_install_completed_flag (s : DigitalOceanServer) (e : Event) :
  let s' := step s e in
  (installState s <> SUCCESS -> installState s' = SUCCESS ->
     localStorage s' = <[getInstallCompletedStorageKey s' := "true"]> (localStorage s)
     /\ isInstallCompleted s' = true)
  /\ (installState s = SUCCESS \/ installState s' <> SUCCESS ->
      localStorage s' = localStorage s).
Proof.
  intros s'.
  assert (Hgen : localStorage s' =
            if decide (installState s' = SUCCESS /\ installState s <> SUCCESS)
            then <[getInstallCompletedStorageKey s' := "true"]> (localStorage s)
            else localStorage s).
  { assert (Heasy : forall t,
              localStorage t = localStorage s -> installState t = installState s ->
              localStorage t =
                if decide (installState t = SUCCESS /\ installState s <> SUCCESS)
                then <[getInstallCompletedStorageKey t := "true"]> (localStorage s)
                else localStorage s).
    { intros t Hl Hi. rewrite decide_False; [done|]. rewrite Hi. tauto. }
    unfold s'. destruct e as [cb| | | |r now| |];
      try (apply Heasy; simpl; unfold checkInstallState; repeat case_match; done).
    - simpl. destruct (refreshing s) as [|n]; [by apply Heasy|].
      unfold refreshed. destruct r as [d|err].
      + pose proof (do_updateInstallState_storage now
          (with_dropletInfo d (with_refreshing n s))) as H.
        pose proof (do_updateInstallState_frame now
          (with_dropletInfo d (with_refreshing n s))) as (_ & _ & _ & _ & Fd & _).
        unfold getInstallCompletedStorageKey in *. simpl in H, Fd.
        destruct (stateGe (installState (updateInstallState now _)) SUCCESS);
          simpl; rewrite Fd; exact H.
      + simpl. rewrite do_setInstallState_storage, do_installState_setInstallState.
        simpl.
        destruct (stateGe (installState s) SUCCESS) eqn:Hge.
        * rewrite decide_False; [done|]. tauto.
        * rewrite decide_False; [done|]. intros [H _]. done.
    - simpl. unfold onDelete.
      rewrite do_setInstallState_storage, do_installState_setInstallState.
      destruct (stateGe (installState s) SUCCESS) eqn:Hge.
      * rewrite decide_False; [done|]. tauto.
      * rewrite (decide_False (P := DELETED = SUCCESS)) by done.
        rewrite decide_False; [done|]. intros [H _]. done. }
  split.
  - intros H1 H2. rewrite decide_True in Hgen by done. split; [done|].
    unfold isInstallCompleted. rewrite Hgen, lookup_insert_eq.
    by apply bool_decide_eq_true.
  - intros H. rewrite decide_False in Hgen by tauto. done.
Qed.

End DigitalOceanMore.

(** ** More about the direct-poll monitor *)

Section GcpMore.
Import Gcp.

Lemma gcpInformed_notifyListener t : gcpInformed (notifyListener t).
Proof.
  unfold gcpInformed, notifyListener, installProgress.
  destruct (listener t) as [cb'|] eqn:Hl; simpl; intros cb Hcb.
  - rewrite Hl in Hcb. injection Hcb as ->. by rewrite last_snoc.
  - by rewrite Hl in Hcb.
Qed.

Lemma gcpInformed_same s t :
  listener t = listener s -> progressCalls t = progressCalls s ->
  installState t = installState s ->
  gcpInformed s -> gcpInformed t.
Proof. unfold gcpInformed, installProgress. intros -> -> ->. done. Qed.

Lemma gcpInformed_pollBody attrs s : gcpInformed s -> gcpInformed (pollBody attrs s).1.
Proof.
  intros Hs. unfold pollBody.
  repeat case_match; simpl; try done; apply gcpInformed_notifyListener.
Qed.

Lemma gcp_size_pos (attrs : gmap string string) k v :
  attrs !! k = Some v -> (0 <? size attrs)%nat = true.
Proof.
  intros Hk. apply Nat.ltb_lt. destruct (size attrs) eqn:E; [|lia].
  apply map_size_empty_inv in E. by rewrite E in Hk.
Qed.

Lemma gcpInformed_resume k s : gcpInformed s -> gcpInformed (resume k s).
Proof.
  intros Hs. destruct k as [r|r|]; simpl.
  - destruct (call s); try done. destruct r as [[]|err]; [|done].
    unfold loopTest.
    assert (H : gcpInformed (setInstallState CREATED s))
      by apply gcpInformed_notifyListener.
    case_match; by apply (gcpInformed_same _ _ eq_refl eq_refl eq_refl).
  - destruct (call s); try done. destruct r as [ga|err]; [|done].
    pose proof (gcpInformed_pollBody (getOutlineGuestAttributes ga) s Hs) as H.
    destruct (pollBody _ s) as [s1 [err|]]; simpl in H;
      by apply (gcpInformed_same _ _ eq_refl eq_refl eq_refl).
  - destruct (call s); try done. unfold loopTest. by case_match.
Qed.

(** X10: the listener of a direct-poll server.  Every event but the
    deletion keeps the listener informed: the last call it received
    carries the progress of the current state.  A snapshot with both keys
    that arrives below BOOTED calls the listener twice, with the progress
    of BOOTED and then with that of SUCCESS: no transition is skipped.  The
    deletion does not call the listener: one that was informed of a state
    with a progress is left with that progress while the progress of the
    server is 0. *)
Theorem gcp_listener_informed (s : GcpServer) :
  (forall e, e <> Deleted -> gcpInformed s -> gcpInformed (step s e))
  /\ (forall cb ga apiUrl certSha256,
        let attrs := getOutlineGuestAttributes ga in
        listener s = Some cb -> call s = AwaitAttributes ->
        stateLt (installState s) BOOTED = true ->
        attrs !! "apiUrl" = Some apiUrl -> attrs !! "certSha256" = Some certSha256 ->
        progressCalls (step s (AttributesFetched (Ok ga)))
          = (progressCalls s ++ [(cb, 8 # 10); (cb, 1%Q)])%list)
  /\ progressCalls (step s Deleted) = progressCalls s
  /\ (forall cb, listener s = Some cb -> gcpInformed s ->
        installState s <> ERROR -> installState s <> DELETED ->
        ~ gcpInformed (step s Deleted)).
Proof.
  split; [|split; [|split; [done|]]].
  - intros e He Hs. destruct e as [cb| |r|r| | | |i k]; try by apply gcpInformed_resume.
    + apply gcpInformed_notifyListener.
    + simpl. by case_match.
    + done.
    + done.
    + simpl. destruct (moreCalls s !! i) as [c|]; [|done].
      apply (gcpInformed_same (resume k (with_call c s))); try done.
      by apply gcpInformed_resume.
  - intros cb ga apiUrl certSha256 attrs Hl Hc Hlt Ha Hb.
    rewrite gcp_step_fetched by done. fold attrs. simpl.
    rewrite gcp_thrown_pollBody, (gcp_both _ _ _ Ha Hb). simpl.
    unfold pollBody. rewrite (gcp_both _ _ _ Ha Hb), (gcp_size_pos _ _ _ Ha), Hlt. simpl.
    unfold setInstallState, notifyListener. simpl. rewrite Hl. simpl. rewrite Hl. simpl.
    by rewrite <- app_assoc.
  - intros cb Hl Hs Hne1 Hne2 Hd.
    specialize (Hs cb Hl). specialize (Hd cb Hl). simpl in Hd.
    rewrite Hs in Hd. unfold installProgress in Hd. simpl in Hd.
    destruct (installState s); try done.
Qed.

(** *** The guest attributes *)

Lemma gcp_fold_entries (l : list Entry) : forall (m : gmap string string) k,
  is_Some (foldl (fun result entry => <[key entry := value entry]> result) m l !! k)
  <-> is_Some (m !! k) \/ exists e, e ∈ l /\ key e = k.
Proof.
  induction l as [|e l IH]; intros m k; simpl.
  - split; [by left|]. intros [H|(e & He & _)]; [done|]. by apply elem_of_nil in He.
  - rewrite IH. split.
    + intros [H|(e' & He' & Hk)].
      * destruct (decide (key e = k)) as [Hk|Hk].
        -- right. exists e. split; [by left|done].
        -- rewrite lookup_insert_ne in H by done. by left.
      * right. exists e'. split; [by right|done].
    + intros [H|(e' & He' & Hk)].
      * left. destruct (decide (key e = k)) as [<-|Hne].
        -- rewrite lookup_insert_eq. eauto.
        -- by rewrite lookup_insert_ne.
      * apply elem_of_cons in He' as [->|He'].
        -- left. rewrite <- Hk, lookup_insert_eq. eauto.
        -- right. by exists e'.
Qed.

Lemma gcp_fold_size (l : list Entry) : forall (m : gmap string string),
  (size (foldl (fun result entry => <[key entry := value entry]> result) m l)
     <= size m + length l)%nat.
Proof.
  induction l as [|e l IH]; intros m; simpl; [lia|].
  pose proof (IH (<[key e := value e]> m)) as H.
  destruct (m !! key e) eqn:E.
  - rewrite map_size_insert_Some in H by eauto. lia.
  - rewrite map_size_insert_None in H by done. lia.
Qed.

(** X11: the map that [getOutlineGuestAttributes] builds.  An answer that
    is missing at any level ([undefined], no [queryValue], no [items])
    gives the empty map, so the server does not count as booted.  With a
    list of items, the keys of the map are the keys of the items, the map
    has at most as many entries as the list, and the last item wins: the
    value of the last item is the value of its key. *)
Theorem gcp_guest_attributes :
  getOutlineGuestAttributes None = ∅
  /\ getOutlineGuestAttributes (Some {| queryValue := None |}) = ∅
  /\ getOutlineGuestAttributes (Some {| queryValue := Some {| items := None |} |}) = ∅
  /\ forall l : list Entry,
       let attrs :=
         getOutlineGuestAttributes (Some {| queryValue := Some {| items := Some l |} |}) in
       (forall k, is_Some (attrs !! k) <-> exists e, e ∈ l /\ key e = k)
       /\ (size attrs <= length l)%nat
       /\ (forall l' e, l = (l' ++ [e])%list -> attrs !! key e = Some (value e)).
Proof.
  split; [done|]. split; [done|]. split; [done|].
  intros l attrs. unfold attrs, getOutlineGuestAttributes. simpl.
  split; [|split].
  - intros k. rewrite gcp_fold_entries, lookup_empty. split.
    + intros [H|H]; [by destruct H|done].
    + by right.
  - pose proof (gcp_fold_size l ∅) as H. by rewrite map_size_empty in H.
  - intros l' e ->. rewrite foldl_app. simpl. apply lookup_insert_eq.
Qed.

(** *** The outcome of [waitOnInstall] *)

Lemma gcp_pollBody_cases attrs s :
  let r := pollBody attrs s in
  (exists c u,
     trustedCertificates r.1 = (trustedCertificates s ++ [c])%list
     /\ managementApiUrl r.1 = Some u /\ installState r.1 = SUCCESS /\ r.2 = None)
  \/ (trustedCertificates r.1 = trustedCertificates s
      /\ installState r.1 = ERROR /\ r.2 = Some ServerInstallFailedError)
  \/ (trustedCertificates r.1 = trustedCertificates s
      /\ (installState r.1 = BOOTED \/ installState r.1 = installState s)
      /\ r.2 = None).
Proof.
  simpl. unfold pollBody.
  destruct (has attrs "apiUrl" && has attrs "certSha256"); simpl.
  - left. eexists _, _.
    rewrite gcp_trusted_setInstallState, gcp_url_setInstallState,
      gcp_installState_setInstallState. simpl.
    repeat split. case_match; by rewrite ?gcp_trusted_setInstallState.
  - right. destruct (has attrs "install-error"); simpl.
    + left. rewrite gcp_trusted_setInstallState, gcp_installState_setInstallState.
      repeat split. case_match; by rewrite ?gcp_trusted_setInstallState.
    + right. case_match;
        rewrite ?gcp_trusted_setInstallState, ?gcp_installState_setInstallState; auto.
Qed.

Lemma gcp_trustStage_step t0 s e :
  moreCalls s = [] -> gcpTrustStage t0 s -> gcpTrustStage t0 (step s e).
Proof.
  intros Hm Hs. destruct e as [cb| |r|r| | | |i k]; [| | | | | | |by rewrite gcp_resumed_none].
  - (* setProgressListener *)
    assert (E : step s (SetProgressListener cb)
                = notifyListener (with_listener (Some cb) s)) by done.
    unfold gcpTrustStage, notifyListener in *. rewrite E. simpl. exact Hs.
  - simpl. destruct (call s) eqn:Hc;
      try (unfold gcpTrustStage in *; simpl; exact Hs).
    unfold gcpTrustStage in *. simpl.
    destruct Hs as [(H1 & H2 & H3 & H4)|(c & u & H1 & H2 & H3 & [H4|H4])];
      try congruence.
    left. repeat split; try done. intros He. destruct (H3 He). congruence.
  - simpl. destruct (call s) eqn:Hc; try done.
    destruct Hs as [(H1 & H2 & H3 & H4)|(c & u & H1 & H2 & H3 & [H4|H4])];
      try congruence.
    destruct r as [[]|err].
    + left. unfold loopTest. rewrite gcp_installState_setInstallState. simpl.
      rewrite gcp_trusted_setInstallState, gcp_installState_setInstallState. done.
    + left. simpl. repeat split; try done. eauto.
  - simpl. destruct (call s) eqn:Hc; try done.
    destruct Hs as [(H1 & H2 & H3 & H4)|(c & u & H1 & H2 & H3 & [H4|H4])];
      try congruence.
    destruct r as [ga|err].
    + pose proof (gcp_pollBody_cases (getOutlineGuestAttributes ga) s) as Hp.
      simpl in Hp. destruct (pollBody _ s) as [s1 thrown]. simpl in Hp.
      destruct Hp as [(c & u & T & U & I & ->)|[(T & I & ->)|(T & I & ->)]].
      * right. exists c, u. simpl. rewrite T, U, I, H1. auto.
      * left. simpl. rewrite T, I, H1. repeat split; try done. eauto.
      * left. simpl. rewrite T, H1. repeat split; try done.
        -- destruct I as [I|I]; rewrite I; done.
        -- intros He. destruct I as [I|I]; rewrite I in He; [done|].
           destruct (H3 He). congruence.
    + left. simpl. repeat split; try done. eauto.
  - simpl. destruct (call s) eqn:Hc; try done.
    unfold loopTest.
    destruct Hs as [(H1 & H2 & H3 & H4)|(c & u & H1 & H2 & H3 & H4)].
    + left. destruct (stateLt (installState s) SUCCESS) eqn:Hlt; simpl.
      * repeat split; try done. intros He. destruct (H3 He). congruence.
      * repeat split; try done.
        -- intros He. destruct (H3 He). congruence.
        -- intros _. revert Hlt H2 H3. unfold stateLt.
           destruct (installState s); simpl; try done.
           intros _ _ H3. destruct (H3 eq_refl). congruence.
    + right. exists c, u. destruct (stateLt (installState s) SUCCESS) eqn:Hlt; simpl.
      * destruct H3 as [H3|H3]; rewrite H3 in Hlt; done.
      * auto.
  - exact Hs.
  - simpl. unfold gcpTrustStage in *. simpl.
    destruct Hs as [(H1 & H2 & H3 & H4)|(c & u & H1 & H2 & H3 & H4)].
    + left. done.
    + right. exists c, u. auto.
Qed.

(** X19: the outcome of [waitOnInstall] and the certificate.  On a server
    in the state UNKNOWN of the constructor on which [waitOnInstall] was not
    called yet, along every run in which it is called once at most: at most
    one fingerprint is trusted; the state is SUCCESS only when one was
    trusted and the endpoint is recorded; and when [waitOnInstall] has
    returned, the state is SUCCESS or DELETED: a deletion ends the call
    without an error. *)
Theorem gcp_waitOnInstall_outcome (s0 : GcpServer) (es : list Event) :
  call s0 = NotCalled -> installState s0 = UNKNOWN ->
  let s := run s0 es in
  moreCalls s = [] ->
  (trustedCertificates s = trustedCertificates s0
   \/ exists c, trustedCertificates s = (trustedCertificates s0 ++ [c])%list)
  /\ (installState s = SUCCESS ->
      exists c u,
        trustedCertificates s = (trustedCertificates s0 ++ [c])%list
        /\ managementApiUrl s = Some u)
  /\ (call s = Returned -> installState s = SUCCESS \/ installState s = DELETED).
Proof.
  intros Hc Hi s Hm.
  assert (H : gcpTrustStage (trustedCertificates s0) s).
  { revert Hm. unfold s. induction es as [|e es IH] using rev_ind.
    - intros _. left. simpl. rewrite Hc, Hi. done.
    - rewrite gcp_run_snoc. intros Hm.
      pose proof (gcp_single_step _ _ Hm) as Hm'.
      apply gcp_trustStage_step; [done|by apply IH]. }
  destruct H as [(H1 & H2 & H3 & H4)|(c & u & H1 & H2 & H3 & H4)].
  - split; [by left|]. split; [done|]. intros Hr. right. by apply H4.
  - split; [right; by exists c|]. split; [intros _; by exists c, u|done].
Qed.

End GcpMore.

(** ** Deleting a direct-poll server *)

Section GcpDelete.
Import Gcp GcpHostDelete.
Variable regionId : string -> string.

Lemma gcp_resume_not_deleted k s :
  installState s <> DELETED -> installState (resume k s) <> DELETED.
Proof.
  intros Hs. rewrite gcp_installState_resume.
  destruct k as [r|r|]; try done.
  - destruct r as [[]|err]; [|done]. by destruct (call s).
  - destruct r as [ga|err]; [|done]. destruct (call s); try done.
    rewrite gcp_installState_pollBody. by repeat case_match.
Qed.

Lemma gcp_step_not_deleted s e :
  e <> Deleted -> installState s <> DELETED -> installState (Gcp.step s e) <> DELETED.
Proof.
  intros He Hs. destruct e as [cb| |r|r| | | |i k]; try by apply gcp_resume_not_deleted.
  - done.
  - simpl. by destruct (call s).
  - done.
  - done.
  - simpl. destruct (moreCalls s !! i) as [c|]; [|done]. simpl.
    by apply (gcp_resume_not_deleted k (with_call c s)).
Qed.

Lemma gcp_bothCalls_step s e : bothCalls regionId (Gcp.step s e) = bothCalls regionId s.
Proof. unfold bothCalls. by rewrite gcp_gcpHost_step. Qed.

Lemma gcp_staged_step m e : staged regionId m -> staged regionId (step regionId m e).
Proof.
  unfold staged. intros Hm. destruct e as [e| |r|r].
  - assert (He : e = Deleted \/ e <> Deleted) by (destruct e; (by left) || by right).
    destruct He as [->|He]; [done|].
    assert (Hs : step regionId m (Server e)
                 = {| server := Gcp.step (server m) e; deleteCall := deleteCall m;
                      apiCalls := apiCalls m |}) by by destruct e.
    rewrite Hs. cbn [server deleteCall apiCalls]. rewrite gcp_bothCalls_step.
    destruct (deleteCall m); try done;
      destruct Hm as [Ha Hd]; (split; [done|by apply gcp_step_not_deleted]).
  - simpl. destruct (deleteCall m) eqn:E; simpl; rewrite ?E; done.
  - simpl. destruct (deleteCall m) eqn:E; simpl; rewrite ?E; try done.
    destruct Hm as [Ha Hd]. destruct r as [[]|err]; simpl.
    + by rewrite Ha.
    + split; [by left|done].
  - simpl. destruct (deleteCall m) eqn:E; simpl; rewrite ?E; try done.
    destruct Hm as [Ha Hd]. destruct r as [[]|err]; simpl.
    + by rewrite Ha.
    + split; [by right|done].
Qed.

Lemma gcp_host_run_snoc m es e :
  run regionId m (es ++ [e]) = step regionId (run regionId m es) e.
Proof. unfold run. by rewrite foldl_app. Qed.

Lemma gcp_host_server_step m e : gcpHost (server (step regionId m e)) = gcpHost (server m).
Proof.
  destruct e as [e| |r|r]; simpl.
  - destruct e; try done; apply (gcp_gcpHost_step (server m)).
  - by destruct (deleteCall m).
  - destruct (deleteCall m); try done. by destruct r as [[]|err].
  - destruct (deleteCall m); try done. by destruct r as [[]|err].
Qed.

Lemma gcp_host_run_staged s es :
  installState s <> DELETED ->
  staged regionId (run regionId (start s) es)
  /\ bothCalls regionId (server (run regionId (start s) es)) = bothCalls regionId s.
Proof.
  intros Hs. induction es as [|e es [IH1 IH2]] using rev_ind; [done|].
  rewrite gcp_host_run_snoc. split; [by apply gcp_staged_step|].
  rewrite <- IH2. unfold bothCalls. by rewrite gcp_host_server_step.
Qed.

(** X12: one call of [delete] on the host of a direct-poll server,
    whatever else happens to the server meanwhile.  The API client receives
    at most two calls, the
    release of the static IP address and then the request to delete the
    instance; the instance is never asked to be deleted before the address
    is released.  The server is in state DELETED only when [delete] has
    returned, and [delete] has returned exactly when both calls were made.
    When [delete] throws, because the creation or the release of the
    address failed, the deletion of the instance was not requested and the
    server is not marked as deleted. *)
Theorem gcp_host_delete_order (s : GcpServer) (es : list GcpHostDelete.Event) :
  installState s <> DELETED ->
  let m := run regionId (start s) es in
  (installState (server m) = DELETED -> deleteCall m = Returned)
  /\ (deleteCall m = Returned <-> apiCalls m = bothCalls regionId s)
  /\ (forall l, DeleteInstance l ∈ apiCalls m -> apiCalls m = bothCalls regionId s)
  /\ (forall e, deleteCall m = GcpHostDelete.Thrown e ->
        installState (server m) <> DELETED
        /\ forall l, DeleteInstance l ∉ apiCalls m)
  /\ (length (apiCalls m) <= 2)%nat.
Proof.
  intros Hs m. destruct (gcp_host_run_staged s es Hs) as [Hm Hb]. fold m in Hm, Hb.
  unfold staged in Hm. rewrite Hb in Hm. clear Hb.
  unfold bothCalls in *. simpl in Hm.
  destruct (deleteCall m) eqn:E.
  all: repeat match goal with
       | H : _ /\ _ |- _ => destruct H
       | H : _ \/ _ |- _ => destruct H
       end.
  all: repeat split; try done; try (intros; congruence).
  all: match goal with H : apiCalls _ = _ |- _ => rewrite H end; simpl; try lia.
  all: try (intros l Hl; repeat (apply elem_of_cons in Hl as [Hl|Hl]; try done);
            by apply elem_of_nil in Hl).
  all: try (intros Hl; repeat (apply elem_of_cons in Hl as [Hl|Hl]; try done);
            by apply elem_of_nil in Hl).
Qed.

End GcpDelete.

(** ** The server management view *)

Section ManagementView.
Import ServerManagementApp.

Lemma app_run_snoc app es e : run app (es ++ [e]) = step (run app es) e.
Proof. unfold run. by rewrite foldl_app. Qed.

(** What a run has shown, and what the storage knows of it. *)
Lemma app_run_shown (app : App) (es : list Event) :
  exists shown,
    metricsDialogs (run app es) = (metricsDialogs app ++ shown)%list
    /\ NoDup shown
    /\ (forall id, id ∈ shown ->
          Js.truthy (localStorage app !! promptedKey id) = false
          /\ localStorage (run app es) !! promptedKey id = Some "true")
    /\ (forall k, Js.truthy (localStorage app !! k) = true ->
          Js.truthy (localStorage (run app es) !! k) = true).
Proof.
  induction es as [|e es IH] using rev_ind.
  - exists []. rewrite app_nil_r. repeat split; try done.
    + constructor.
    + by apply elem_of_nil in H.
    + by apply elem_of_nil in H.
  - destruct IH as (shown & Hd & Hn & Hs & Hm). rewrite app_run_snoc.
    set (cur := run app es) in *.
    destruct e as [r|selected]; simpl.
    { exists shown. done. }
    unfold showMetricsOptInOnce.
    destruct (negb (bool_decide (selectedServer cur = Some (serverRef selected))));
      [by exists shown|].
    destruct (negb (metricsEnabled selected)); simpl; [|by exists shown].
    destruct (Js.truthy (localStorage cur !! promptedKey (serverId selected))) eqn:Ht;
      simpl; [by exists shown|].
    exists (shown ++ [serverId selected])%list. split; [|split; [|split]].
    + by rewrite Hd, app_assoc.
    + apply NoDup_app. split; [done|]. split; [|apply NoDup_singleton].
      intros id Hid Hin. apply list_elem_of_singleton in Hin as ->.
      destruct (Hs _ Hid) as [_ Hk]. by rewrite Hk in Ht.
    + intros id Hid. apply elem_of_app in Hid as [Hid|Hid].
      * destruct (Hs _ Hid) as [Ha Hk]. split; [done|].
        destruct (decide (promptedKey (serverId selected) = promptedKey id)) as [->|Hne].
        -- apply lookup_insert_eq.
        -- by rewrite lookup_insert_ne.
      * apply list_elem_of_singleton in Hid as ->. split; [|apply lookup_insert_eq].
        destruct (Js.truthy (localStorage app !! promptedKey (serverId selected))) eqn:Ha;
          [|done].
        apply Hm in Ha. by rewrite Ha in Ht.
    + intros k Hk. apply Hm in Hk.
      destruct (decide (promptedKey (serverId selected) = k)) as [<-|Hne].
      * by rewrite lookup_insert_eq.
      * by rewrite lookup_insert_ne.
Qed.

(** X13: the metrics opt-in prompt.  Whatever servers are shown and
    whenever the checks run, the dialog is shown at most once for a server
    id, and only for an id that the local storage did not know as prompted;
    afterwards the storage knows it.  The check itself runs one day after
    the creation of the server, or at once when that day has passed. *)
Theorem metrics_prompt_once (app : App) (es : list Event) :
  (exists shown,
     metricsDialogs (run app es) = (metricsDialogs app ++ shown)%list
     /\ NoDup shown
     /\ forall id, id ∈ shown ->
          Js.truthy (localStorage app !! promptedKey id) = false
          /\ localStorage (run app es) !! promptedKey id = Some "true")
  /\ forall selected now,
       runsAt now (showMetricsOptInWhenNeeded selected now)
         = Z.max now (createdDate selected + ONE_DAY_IN_MS).
Proof.
  split.
  - destruct (app_run_shown app es) as (shown & Hd & Hn & Hs & _). by exists shown.
  - intros selected now. unfold showMetricsOptInWhenNeeded, runsAt.
    destruct (Z.leb_spec ONE_DAY_IN_MS (now - createdDate selected)); lia.
Qed.


(** X15: an amount entered in the view, stored and shown again.  Whole
    gigabytes come back as they were, except that 0 GB comes back as 0 MB;
    megabytes come back as they were below 1000 and as whole gigabytes,
    rounded down, from 1000 on; an amount with another unit is stored as
    that number of bytes. *)
Theorem display_amount_stored_and_shown (v : Z) (u : string) :
  (0 <= v)%Z -> (v * 10 ^ 9 < MAX_SAFE)%Z ->
  let back d := dataLimitToDisplayDataAmount (displayDataAmountToDataLimit (Some d)) in
  back {| value := v; unit := "GB" |}
    = Some (if (v =? 0)%Z then {| value := 0; unit := "MB" |}
            else {| value := v; unit := "GB" |})
  /\ back {| value := v; unit := "MB" |}
    = Some (if (v <? 1000)%Z then {| value := v; unit := "MB" |}
            else {| value := v / 1000; unit := "GB" |})
  /\ (u <> "GB" -> u <> "MB" ->
      displayDataAmountToDataLimit (Some {| value := v; unit := u |})
        = Some {| bytes := v |}).
Proof.
  intros Hv Hmax. simpl. unfold dataLimitToDisplayDataAmount. simpl.
  change (10 ^ 9)%Z with 1000000000%Z. change (10 ^ 6)%Z with 1000000%Z.
  split; [|split].
  - destruct (Z.eqb_spec v 0) as [->|Hne]; [done|].
    destruct (Z.leb_spec 1000000000 (v * 1000000000)); [|lia].
    by rewrite Z.div_mul.
  - destruct (Z.ltb_spec v 1000).
    + destruct (Z.leb_spec 1000000000 (v * 1000000)); [lia|].
      by rewrite Z.div_mul.
    + destruct (Z.leb_spec 1000000000 (v * 1000000)); [|lia].
      do 2 f_equal.
      replace 1000000000%Z with (1000000 * 1000)%Z by done.
      rewrite Z.mul_comm, Z.div_mul_cancel_l by lia. done.
  - intros Hg Hm. apply String.eqb_neq in Hg, Hm. by rewrite Hg, Hm.
Qed.

End ManagementView.

(** ** The access service *)

Section AccessServiceFacts.
Import AccessService.

Lemma access_run_snoc s es e : run s (es ++ [e]) = step (run s es) e.
Proof. unfold run. by rewrite foldl_app. Qed.

Lemma access_consistent_created s cfg n :
  (forall k, k ∈ closed s -> (k < created s)%nat) -> NoDup (closed s) ->
  cfg <> None ->
  consistent {| server := Some (created s); config := cfg; suspended := n;
                created := S (created s); closed := closed s |}.
Proof.
  intros Hc Hn Hcfg. unfold consistent. simpl. split; [|split; [|split]].
  - by intros k [= <-].
  - intros k Hk. apply Hc in Hk. lia.
  - intros k [= <-] Hk. apply Hc in Hk. lia.
  - done.
Qed.

Lemma access_consistent_step s e : consistent s -> consistent (step s e).
Proof.
  intros Hcons. pose proof Hcons as (Ha & Hb & Hc & Hd).
  destruct e as [files|r files|]; simpl.
  - unfold start. destruct (server s) as [k|] eqn:Hs; [done|].
    destruct (config s) as [c|] eqn:Hcfg; simpl.
    + destruct files as [[]|e]; simpl; [|done].
      apply access_consistent_created; try done. by rewrite Hcfg.
    + unfold consistent. simpl. done.
  - unfold configGenerated. destruct (suspended s) as [|n]; [done|].
    destruct r as [c|e]; simpl.
    + destruct files as [[]|e]; simpl.
      * by apply (access_consistent_created s (Some c) n).
      * unfold consistent. simpl. split; [|done].
        intros k Hk. by destruct (Ha k Hk).
    + done.
  - unfold stop. destruct (server s) as [k|] eqn:Hs; simpl; [|done].
    unfold consistent. simpl. split; [done|]. split; [|split; [done|]].
    + intros k' Hk'. apply elem_of_app in Hk' as [Hk'|Hk']; [by apply Hb|].
      apply list_elem_of_singleton in Hk' as ->. destruct (Ha k eq_refl). lia.
    + apply NoDup_app. split; [done|]. split; [|apply NoDup_singleton].
      intros k' Hk' Hin. apply list_elem_of_singleton in Hin as ->. by apply (Hc k).
Qed.

Lemma access_consistent_run c es : consistent (run (new c) es).
Proof.
  induction es as [|e es IH] using rev_ind.
  - unfold consistent. simpl. repeat split; try done.
    + intros k Hk. by apply elem_of_nil in Hk.
    + constructor.
  - rewrite access_run_snoc. by apply access_consistent_step.
Qed.

(** X16: the life cycle of the access service, after any calls on a
    service as the constructor leaves it.  The service holds a server only
    with a configuration; the server it holds is the last one created and
    is not closed, and no server is closed twice.  While it holds a server,
    [start] throws and changes nothing; while it holds none, [stop] throws
    and changes nothing.  [stop] closes the server held and forgets the
    configuration, also one that was given to the constructor: the next
    [start] generates a new one. *)
Theorem access_service_lifecycle (c : option AccessServiceConfig) (es : list Event) :
  let s := run (new c) es in
  consistent s
  /\ (forall k files, server s = Some k ->
        start files s = (Rejected (OtherError "access server already started"), s))
  /\ (server s = None -> stop s = (Throw (OtherError "access server not started"), s))
  /\ (forall k, server s = Some k ->
        (stop s).1 = Ok ()
        /\ server (stop s).2 = None /\ config (stop s).2 = None
        /\ closed (stop s).2 = (closed s ++ [k])%list
        /\ forall files, (start files (stop s).2).1 = Suspended).
Proof.
  intros s. split; [apply access_consistent_run|]. split; [|split].
  - intros k files Hk. unfold start. by rewrite Hk.
  - intros Hk. unfold stop. by rewrite Hk.
  - intros k Hk. unfold stop. rewrite Hk. simpl. done.
Qed.

(** What keeps a server from ever being closed. *)
Lemma access_orphan_step k0 s e :
  k0 ∉ closed s -> (forall k, server s = Some k -> (k0 < k)%nat) -> (k0 < created s)%nat ->
  (k0 ∉ closed (step s e))
  /\ (forall k, server (step s e) = Some k -> (k0 < k)%nat)
  /\ (k0 < created (step s e))%nat.
Proof.
  intros Hc Hs Hn. destruct e as [files|r files|]; simpl.
  - unfold start. destruct (server s) as [k|] eqn:E; [by rewrite <- E in Hs|].
    destruct (config s); simpl.
    + destruct files as [[]|e]; simpl; [|by rewrite <- E in Hs].
      repeat split; try done; [by intros k [= <-]|lia].
    + done.
  - unfold configGenerated. destruct (suspended s) as [|n]; [done|].
    destruct r as [c|e]; simpl; [|done].
    destruct files as [[]|e]; simpl; [|done].
    repeat split; try done; [by intros k [= <-]|lia].
  - unfold stop. destruct (server s) as [k|] eqn:E; simpl; [|by rewrite <- E in Hs].
    repeat split; try done.
    intros Hin. apply elem_of_app in Hin as [Hin|Hin]; [done|].
    apply list_elem_of_singleton in Hin as ->. specialize (Hs k eq_refl). lia.
Qed.

Lemma access_orphan_run k0 es : forall s,
  k0 ∉ closed s -> (forall k, server s = Some k -> (k0 < k)%nat) -> (k0 < created s)%nat ->
  k0 ∉ closed (run s es).
Proof.
  induction es as [|e es IH]; intros s Hc Hs Hn; [done|].
  destruct (access_orphan_step k0 s e Hc Hs Hn) as (H1 & H2 & H3).
  simpl. by apply IH.
Qed.

(** X17: two calls of [start] that overlap.  On a service without a server
    and without a configuration, a second [start] that is called while the
    first one generates its configuration passes the test of [start] too:
    when both have resumed, two servers were created, the service holds the
    second one with the configuration of the second call, and the first
    server is not closed by anything that happens afterwards. *)
Theorem access_service_overlapping_starts
  (c0 : option AccessServiceConfig) (es later : list Event)
  (c1 c2 : AccessServiceConfig) (f1 f2 : Result unit) :
  let s := run (new c0) es in
  server s = None -> config s = None ->
  let s2 := run s [Start f1; Start f2;
                   ConfigGenerated (Ok c1) (Ok ()); ConfigGenerated (Ok c2) (Ok ())] in
  created s2 = S (S (created s))
  /\ server s2 = Some (S (created s))
  /\ config s2 = Some c2
  /\ (created s ∉ closed (run s2 later)).
Proof.
  intros s Hs Hc s2.
  destruct (access_consistent_run c0 es) as (_ & Hb & _ & _). fold s in Hb.
  assert (E : s2 = {| server := Some (S (created s)); config := Some c2;
                      suspended := suspended s; created := S (S (created s));
                      closed := closed s |}).
  { unfold s2. simpl. unfold start. simpl. rewrite Hs, Hc. done. }
  rewrite E. simpl. repeat split; try done.
  apply access_orphan_run; simpl.
  - intros Hin. apply Hb in Hin. lia.
  - intros k [= <-]. lia.
  - lia.
Qed.

(** *** The prefix of the service *)

Lemma base64Char_not_equals n : Ascii.eqb (Js.base64Char n) "=" = false.
Proof.
  apply Ascii.eqb_neq. intros H. apply (f_equal N_of_ascii) in H. revert H.
  unfold Js.base64Char.
  destruct (N.ltb_spec n 26); [rewrite N_ascii_embedding by lia; simpl; lia|].
  destruct (N.ltb_spec n 52); [rewrite N_ascii_embedding by lia; simpl; lia|].
  destruct (N.ltb_spec n 62); [rewrite N_ascii_embedding by lia; simpl; lia|].
  by destruct (n =? 62)%N.
Qed.

Lemma removeChar_absent c s : includesChar c (removeChar c s) = false.
Proof.
  induction s as [|x r IH]; [done|]. simpl.
  destruct (Ascii.eqb x c) eqn:E; [done|]. simpl. by rewrite E.
Qed.

Lemma sliceTo_absent c n : forall s,
  includesChar c s = false -> includesChar c (Js.sliceTo n s) = false.
Proof.
  unfold Js.sliceTo. induction n as [|n IH]; intros [|x r]; simpl; try done.
  intros H. apply orb_false_iff in H as [-> H]. simpl. by apply IH.
Qed.

Lemma sliceTo_length n : forall s, (String.length (Js.sliceTo n s) <= n)%nat.
Proof.
  unfold Js.sliceTo. induction n as [|n IH]; intros [|x r]; simpl; try lia.
  specialize (IH r). lia.
Qed.

Lemma btoa_three a b c r :
  Js.btoa (String a (String b (String c r)))
  = String (Js.base64Char (N_of_ascii a / 4))
      (String (Js.base64Char ((N_of_ascii a mod 4) * 16 + N_of_ascii b / 16))
         (String (Js.base64Char ((N_of_ascii b mod 16) * 4 + N_of_ascii c / 64))
            (String (Js.base64Char (N_of_ascii c mod 64)) (Js.btoa r))))%N.
Proof. done. Qed.

Lemma removeChar_base64 n s :
  removeChar "=" (String (Js.base64Char n) s) = String (Js.base64Char n) (removeChar "=" s).
Proof. simpl. by rewrite base64Char_not_equals. Qed.

Lemma sliceTo_cons n c s : Js.sliceTo (S n) (String c s) = String c (Js.sliceTo n s).
Proof. done. Qed.

Lemma sliceTo_zero s : Js.sliceTo 0 s = "".
Proof. by destruct s. Qed.

(** X18: the path prefix that the access service generates.  It has at
    most 16 characters and no [=].  From a UUID of at least 12 characters
    it is the base64 text of the first 12 characters, 16 characters long:
    the rest of the UUID does not enter the prefix. *)
Theorem access_prefix_of_uuid (uuid : string) :
  (String.length (generatePrefix uuid) <= 16)%nat
  /\ includesChar "=" (generatePrefix uuid) = false
  /\ ((12 <= String.length uuid)%nat ->
      generatePrefix uuid = Js.btoa (Js.sliceTo 12 uuid)
      /\ String.length (generatePrefix uuid) = 16%nat
      /\ forall other, Js.sliceTo 12 other = Js.sliceTo 12 uuid ->
           generatePrefix other = generatePrefix uuid).
Proof.
  split; [apply sliceTo_length|]. split; [apply sliceTo_absent, removeChar_absent|].
  assert (Hmain : forall u, (12 <= String.length u)%nat ->
            generatePrefix u = Js.btoa (Js.sliceTo 12 u)
            /\ String.length (generatePrefix u) = 16%nat).
  { intros u Hl.
    do 12 (destruct u as [|? u]; [simpl in Hl; lia|]).
    unfold generatePrefix.
    rewrite !sliceTo_cons, sliceTo_zero, !btoa_three, !removeChar_base64, !sliceTo_cons,
      sliceTo_zero.
    done. }
  intros Hl. destruct (Hmain uuid Hl) as [H1 H2]. split; [done|]. split; [done|].
  intros other Ho.
  assert (Hlo : (12 <= String.length other)%nat).
  { do 12 (destruct uuid as [|? uuid]; [simpl in Hl; lia|]).
    rewrite !sliceTo_cons, sliceTo_zero in Ho.
    do 12 (destruct other as [|? other]; [done|]). simpl. lia. }
  destruct (Hmain other Hlo) as [H3 _]. by rewrite H3, H1, Ho.
Qed.

End AccessServiceFacts.

(** ** The further theorems at concrete inputs *)

Section MoreExamples.
#[local] Existing Instance hexToStringModel.

Lemma do_tag_decoding_witness :
  DigitalOcean.addTag ∅ "KV:CertSHA256:4d61" = <["certsha256" := "Ma"]> ∅
  /\ DigitalOcean.addTag ∅ "KV:CertSHA256:4d61:rest" = <["certsha256" := "Ma"]> ∅
  /\ DigitalOcean.addTag (<["a" := "b"]> ∅) "KV:CertSHA256" = <["a" := "b"]> ∅
  /\ DigitalOcean.addTag (<["a" := "b"]> ∅) "kv:__Proto__:4d61" = <["a" := "b"]> ∅.
Proof.
  split; [|split; [|split]].
  - destruct (do_tag_decoding ∅ "KV" "CertSHA256" "4d61" eq_refl eq_refl eq_refl)
      as (H & _).
    exact H.
  - destruct (do_tag_decoding ∅ "KV" "CertSHA256" "4d61" eq_refl eq_refl eq_refl)
      as (_ & H & _).
    exact (H "rest").
  - destruct (do_tag_decoding (<["a" := "b"]> ∅) "KV" "CertSHA256" "4d61"
                eq_refl eq_refl eq_refl) as (_ & _ & H & _).
    exact H.
  - destruct (do_tag_decoding (<["a" := "b"]> ∅) "kv" "__Proto__" "4d61"
                eq_refl eq_refl eq_refl) as (H & _ & _ & _ & Hp & _).
    etransitivity; [exact H|]. exact (Hp eq_refl (hexToString (Some "4d61"))).
Defined.

Lemma do_last_tag_wins_witness :
  DigitalOcean.getTagMap (droplet "new" ["kv:a:61"; "KV:A:62"]) !! "a" = Some "b".
Proof.
  refine (do_last_tag_wins (droplet "new" ["kv:a:61"; "KV:A:62"]) ["kv:a:61"]
            "KV" "A" "62" "b" eq_refl eq_refl eq_refl eq_refl _ eq_refl).
  discriminate.
Defined.

Lemma do_tag_map_keys_witness :
  Js.objectGet (DigitalOcean.getTagMap (droplet "new" ["kv:toString:61"])) "toString"
    = Js.Inherited
  /\ Js.objectGet (DigitalOcean.getTagMap (droplet "new" ["kv:toString:61"])) "ApiUrl"
    = Js.Undefined
  /\ Js.objectGet (DigitalOcean.getTagMap (droplet "new" finishedTags)) "apiurl"
    = Js.Own "https://h/x".
Proof.
  split; [|split].
  - destruct (do_tag_map_keys (droplet "new" ["kv:toString:61"]) "toString")
      as (_ & H & _).
    apply H. discriminate.
  - destruct (do_tag_map_keys (droplet "new" ["kv:toString:61"]) "ApiUrl")
      as (_ & H & _).
    apply H. discriminate.
  - destruct (do_tag_map_keys (droplet "new" finishedTags) "apiurl") as (_ & _ & H & _).
    rewrite H; [by vm_compute|]. right. left.
Defined.

Lemma do_trusts_once_witness :
  exists fingerprint apiAddress,
    DigitalOcean.trustedCertificates (DigitalOcean.run doRefreshing finishedRefresh)
      = (DigitalOcean.trustedCertificates doRefreshing ++ [fingerprint])%list
    /\ DigitalOcean.managementApiUrl (DigitalOcean.run doRefreshing finishedRefresh)
       = Some apiAddress
    /\ Js.endsWith apiAddress "/" = true.
Proof.
  destruct (do_trusts_once finishedRefresh doRefreshing) as [H _].
  apply H; [not_terminal|by vm_compute].
Defined.

Lemma do_no_refresh_when_terminal_witness :
  DigitalOcean.installState (DigitalOcean.new 7 (droplet "active" finishedTags) 0 0)
    = SUCCESS
  /\ DigitalOcean.refreshing
       (DigitalOcean.run (DigitalOcean.new 7 (droplet "active" finishedTags) 0 0)
          [DigitalOcean.RefreshInterval; DigitalOcean.RefreshInterval]) = 0%nat.
Proof.
  destruct do_no_refresh_when_terminal as [_ H].
  destruct (H 7%nat (droplet "active" finishedTags) 0%Z 0%Z
              [DigitalOcean.RefreshInterval; DigitalOcean.RefreshInterval])
    as (H1 & _ & H3).
  - tag_absent.
  - by vm_compute.
  - exists "TWE=", "https://h/x/". split; by vm_compute.
  - split; [exact H1|exact H3].
Defined.

Lemma do_install_completed_flag_witness :
  DigitalOcean.isInstallCompleted
    (DigitalOcean.step doRefreshing
       (DigitalOcean.DropletFetched (Ok (droplet "active" finishedTags)) 3000)) = true
  /\ DigitalOcean.localStorage (DigitalOcean.step doRefreshing DigitalOcean.Deleted)
     = DigitalOcean.localStorage doRefreshing.
Proof.
  split.
  - destruct (do_install_completed_flag doRefreshing
                (DigitalOcean.DropletFetched (Ok (droplet "active" finishedTags)) 3000))
      as [H _].
    destruct H as [_ H]; [by vm_compute|by vm_compute|exact H].
  - destruct (do_install_completed_flag doRefreshing DigitalOcean.Deleted) as [_ H].
    apply H. right. by vm_compute.
Defined.

Lemma gcp_listener_informed_witness :
  Gcp.progressCalls (Gcp.step gcpListening (Gcp.AttributesFetched (Ok finishedAnswer)))
    = (Gcp.progressCalls gcpListening ++ [(5%nat, 8 # 10); (5%nat, 1%Q)])%list
  /\ ~ gcpInformed (Gcp.step gcpListening Gcp.Deleted).
Proof.
  destruct (gcp_listener_informed gcpListening) as (_ & H & _ & Hd). split.
  - apply (H 5%nat finishedAnswer "https://h/x" "Ma"); by vm_compute.
  - apply (Hd 5%nat); try by vm_compute.
    intros cb Hcb. vm_compute in Hcb. injection Hcb as <-. by vm_compute.
Defined.

Lemma gcp_waitOnInstall_outcome_witness :
  let s := Gcp.run sampleGcp
             [Gcp.WaitOnInstall; Gcp.CompletionSettled (Ok ());
              Gcp.AttributesFetched (Ok finishedAnswer); Gcp.SleepDone] in
  (Gcp.trustedCertificates s = Gcp.trustedCertificates sampleGcp
   \/ exists c, Gcp.trustedCertificates s = (Gcp.trustedCertificates sampleGcp ++ [c])%list)
  /\ (Gcp.installState s = SUCCESS ->
      exists c u,
        Gcp.trustedCertificates s = (Gcp.trustedCertificates sampleGcp ++ [c])%list
        /\ Gcp.managementApiUrl s = Some u)
  /\ (Gcp.call s = Gcp.Returned ->
      Gcp.installState s = SUCCESS \/ Gcp.installState s = DELETED).
Proof.
  exact (gcp_waitOnInstall_outcome sampleGcp
           [Gcp.WaitOnInstall; Gcp.CompletionSettled (Ok ());
            Gcp.AttributesFetched (Ok finishedAnswer); Gcp.SleepDone]
           eq_refl eq_refl eq_refl).
Defined.

Lemma gcp_host_delete_order_witness :
  let m := GcpHostDelete.run sampleRegionId (GcpHostDelete.start gcpFetching)
             deletionEvents in
  GcpHostDelete.deleteCall m = GcpHostDelete.Returned
  /\ GcpHostDelete.apiCalls m
     = [GcpHostDelete.DeleteStaticIp "us-east1" sampleLocator "outline-1";
        GcpHostDelete.DeleteInstance sampleLocator].
Proof.
  destruct (gcp_host_delete_order sampleRegionId gcpFetching deletionEvents)
    as (H1 & H2 & _).
  - by vm_compute.
  - simpl. split.
    + apply H1. by vm_compute.
    + apply H2. apply H1. by vm_compute.
Defined.


Lemma display_amount_stored_and_shown_witness :
  ServerManagementApp.dataLimitToDisplayDataAmount
    (ServerManagementApp.displayDataAmountToDataLimit
       (Some {| ServerManagementApp.value := 1500; ServerManagementApp.unit := "MB" |}))
  = Some {| ServerManagementApp.value := 1; ServerManagementApp.unit := "GB" |}.
Proof.
  destruct (display_amount_stored_and_shown 1500 "KB") as (_ & H & _).
  - lia.
  - by vm_compute.
  - exact H.
Defined.

Lemma access_service_overlapping_starts_witness :
  let s2 := AccessService.run (AccessService.new None)
              [AccessService.Start (Ok ()); AccessService.Start (Ok ());
               AccessService.ConfigGenerated (Ok (sampleConfig "a")) (Ok ());
               AccessService.ConfigGenerated (Ok (sampleConfig "b")) (Ok ())] in
  AccessService.created s2 = 2%nat
  /\ AccessService.server s2 = Some 1%nat
  /\ AccessService.config s2 = Some (sampleConfig "b")
  /\ (0%nat ∉ AccessService.closed (AccessService.run s2 [AccessService.Stop])).
Proof.
  exact (access_service_overlapping_starts None [] [AccessService.Stop]
           (sampleConfig "a") (sampleConfig "b") (Ok ()) (Ok ()) eq_refl eq_refl).
Defined.

Lemma access_prefix_of_uuid_witness :
  AccessService.generatePrefix sampleUuid = Js.btoa "123e4567-e89"
  /\ String.length (AccessService.generatePrefix sampleUuid) = 16%nat
  /\ AccessService.generatePrefix "123e4567-e89b-42d3-b456-000000000000"
     = AccessService.generatePrefix sampleUuid.
Proof.
  destruct (access_prefix_of_uuid sampleUuid) as (_ & _ & H).
  destruct H as (H1 & H2 & H3); [vm_compute; lia|].
  split; [exact H1|]. split; [exact H2|]. apply H3. reflexivity.
Defined.

End MoreExamples.
